(** * font_compress: bit packing and zero-run RLE of bitmap font sheets

    A shallow embedding of [font_compress.py].  Python integers are [Z],
    Python lists and bytearrays are [list Z], [while] loops carry an
    explicit iteration budget (and are shown to finish within it), and
    Python exceptions are values of a small error monad. *)

From Stdlib Require Import ZArith List Lia Bool String Ascii Sorted.
From Stdlib Require Import DecimalString DecimalNat.
From stdpp Require Import base list.

Local Open Scope Z_scope.

(** ** Python runtime: exceptions, sequences, ranges *)

(** Python exceptions.  [OutOfFuel] is not one of them: it marks a [while]
    loop of the embedding that used up its iteration budget before its
    condition became false. *)
Inductive exn : Type :=
  | AssertionError
  | IndexError
  | ValueError
  | ZeroDivisionError
  | OSError
  | SystemExit (code : Z)
  | OutOfFuel.

Inductive outcome (A : Type) : Type :=
  | Ok (a : A)
  | Raise (e : exn).
Arguments Ok {A} a.
Arguments Raise {A} e.

#[global] Instance outcome_ret : MRet outcome := fun _ a => Ok a.
#[global] Instance outcome_bind : MBind outcome := fun _ _ f r =>
  match r with
  | Ok a => f a
  | Raise e => Raise e
  end.

(** [range(n)] and [range(0, n, step)] for a positive [step]. *)
Definition range (n : Z) : list Z := map Z.of_nat (seq 0 (Z.to_nat n)).

Definition range_step (stop step : Z) : list Z :=
  map (fun k => Z.of_nat k * step) (seq 0 (Z.to_nat ((stop + step - 1) / step))).

(** A [for] loop whose body may raise: the state is threaded through the
    iterations and the first exception leaves the loop. *)
Fixpoint for_each {A S : Type} (xs : list A) (body : S -> A -> outcome S)
    (s : S) : outcome S :=
  match xs with
  | [] => Ok s
  | x :: xs' =>
      match body s x with
      | Ok s' => for_each xs' body s'
      | Raise e => Raise e
      end
  end.

(** Subscript on a Python sequence: a negative index counts from the end,
    an index outside [-len, len) raises [IndexError]. *)
Definition py_index (len : nat) (k : Z) : option nat :=
  if (0 <=? k) && (k <? Z.of_nat len) then Some (Z.to_nat k)
  else if (k <? 0) && (- Z.of_nat len <=? k) then Some (Z.to_nat (k + Z.of_nat len))
  else None.

Definition getitem (l : list Z) (k : Z) : outcome Z :=
  match py_index (length l) k with
  | Some i => match l !! i with Some v => Ok v | None => Raise IndexError end
  | None => Raise IndexError
  end.

Definition setitem (l : list Z) (k : Z) (v : Z) : outcome (list Z) :=
  match py_index (length l) k with
  | Some i => Ok (<[ i := v ]> l)
  | None => Raise IndexError
  end.

(** Storing into a [bytearray] also checks that the value is a byte. *)
Definition bytearray_setitem (l : list Z) (k : Z) (v : Z) : outcome (list Z) :=
  match py_index (length l) k with
  | Some i => if (0 <=? v) && (v <? 256) then Ok (<[ i := v ]> l) else Raise ValueError
  | None => Raise IndexError
  end.

(** The slice [l[:k]]: a negative [k] drops [-k] elements from the end. *)
Definition slice_to (l : list Z) (k : Z) : list Z :=
  if 0 <=? k then take (Z.to_nat k) l
  else take (length l - Z.to_nat (- k)) l.

(** Floor division and modulo; both raise on a zero divisor. *)
Definition floordiv (a b : Z) : outcome Z :=
  if b =? 0 then Raise ZeroDivisionError else Ok (a / b).

Definition pymod (a b : Z) : outcome Z :=
  if b =? 0 then Raise ZeroDivisionError else Ok (a mod b).

(** ** RLE codec *)

(** Inner loop of [rle_compress]:
    [while i < n and data[i] == 0x00 and count < 255: i += 1; count += 1]. *)
Fixpoint zero_run (fuel : nat) (data : list Z) (i : nat) (count : Z)
    : outcome (nat * Z) :=
  match fuel with
  | O => Raise OutOfFuel
  | S fuel' =>
      if (i <? length data)%nat then
        d ← getitem data (Z.of_nat i);
        if (d =? 0) && (count <? 255)
        then zero_run fuel' data (i + 1) (count + 1)
        else Ok (i, count)
      else Ok (i, count)
  end.

(** Outer loop of [rle_compress], from cursor [i] with [result] so far. *)
Fixpoint rle_loop (fuel : nat) (data : list Z) (i : nat) (result : list Z)
    : outcome (list Z) :=
  match fuel with
  | O => Raise OutOfFuel
  | S fuel' =>
      if (i <? length data)%nat then
        d ← getitem data (Z.of_nat i);
        let result := result ++ [d] in
        d ← getitem data (Z.of_nat i);
        if d =? 0 then
          '(i', count) ← zero_run (S (length data)) data (i + 1) 1;
          rle_loop fuel' data i' (result ++ [count])
        else rle_loop fuel' data (i + 1) result
      else Ok result
  end.

(** [rle_compress]: the loop entered at [i = 0] with an empty result.  One
    more iteration than there are input bytes always suffices
    ([rle_compress_tokens]). *)
Definition rle_compress (data : list Z) : outcome (list Z) :=
  rle_loop (S (length data)) data 0 [].

(** First loop of [decompress_and_verify]: the byte-level RLE decoder. *)
Fixpoint rle_decode_loop (fuel : nat) (compressed : list Z) (i : nat)
    (result : list Z) : outcome (list Z) :=
  match fuel with
  | O => Raise OutOfFuel
  | S fuel' =>
      if (i <? length compressed)%nat then
        b ← getitem compressed (Z.of_nat i);
        if b =? 0 then
          if (i + 1 <? length compressed)%nat then
            count ← getitem compressed (Z.of_nat (i + 1));
            rle_decode_loop fuel' compressed (i + 2)
              (result ++ replicate (Z.to_nat count) 0)
          else rle_decode_loop fuel' compressed (i + 1) (result ++ [0])
        else
          b ← getitem compressed (Z.of_nat i);
          rle_decode_loop fuel' compressed (i + 1) (result ++ [b])
      else Ok result
  end.

Definition rle_decode_bytes (compressed : list Z) : outcome (list Z) :=
  rle_decode_loop (S (length compressed)) compressed 0 [].

(** Second loop of [decompress_and_verify]: each byte becomes eight pixels,
    most significant bit first. *)
Definition unpack_byte (unpacked : list Z) (byte : Z) : list Z :=
  fold_left
    (fun unpacked bit =>
       unpacked ++ [if Z.land byte (Z.shiftl 1 (7 - bit)) =? 0 then 0 else 255])
    (range 8) unpacked.

Definition unpack_bits (result : list Z) : list Z :=
  fold_left unpack_byte result [].

Definition decompress_and_verify (compressed : list Z) (original_size : Z)
    : outcome (list Z) :=
  result ← rle_decode_bytes compressed;
  Ok (slice_to (unpack_bits result) original_size).

(** The decoder of the spec's round trip property: the byte-level loop of
    [decompress_and_verify], cut to the expected length. *)
Definition rle_decode (compressed : list Z) (expected_length : Z)
    : outcome (list Z) :=
  result ← rle_decode_bytes compressed;
  Ok (slice_to result expected_length).

(** ** Bit packer *)

(** Inner loop of [compress_to_bits]: the byte of the eight pixels from [i]. *)
Definition pack_byte (pixels : list Z) (i : Z) : outcome Z :=
  for_each (range 8)
    (fun byte j =>
       p ← getitem pixels (i + j);
       Ok (Z.lor (Z.shiftl byte 1) (if p =? 255 then 1 else 0)))
    0.

Definition compress_to_bits (pixels : list Z) : outcome (list Z) :=
  if Z.of_nat (length pixels) mod 8 =? 0 then
    for_each (range_step (Z.of_nat (length pixels)) 8)
      (fun compressed i =>
         byte ← pack_byte pixels i;
         bytearray_setitem compressed (i / 8) byte)
      (replicate (Z.to_nat (Z.of_nat (length pixels) / 8)) 0)
  else Raise AssertionError.

(** ** Images, binarizer and grid detection *)

(** A grayscale image as the imaging library hands it over: its size and
    the pixel access object [pixels[x, y]]. *)
Record image : Type := {
  width : Z;
  height : Z;
  pixel : Z -> Z -> Z
}.

Definition binarize_image (img : image) (threshold : Z) : list Z :=
  fold_left
    (fun binary y =>
       fold_left
         (fun binary x =>
            binary ++ [if pixel img x y <? threshold then 0 else 255])
         (range (width img)) binary)
    (range (height img)) [].

(** The separator scans of [detect_grid]. *)
Definition v_separators (img : image) (threshold : Z) : list Z :=
  fold_left
    (fun v_seps x =>
       if forallb (fun y => pixel img x y <? threshold) (range (height img))
       then v_seps ++ [x] else v_seps)
    (range (width img)) [].

Definition h_separators (img : image) (threshold : Z) : list Z :=
  fold_left
    (fun h_seps y =>
       if forallb (fun x => pixel img x y <? threshold) (range (width img))
       then h_seps ++ [y] else h_seps)
    (range (height img)) [].

(** [detect_grid] returns [(cols, rows, char_width, char_height)] or [None]. *)
Definition detect_grid (img : image) (threshold : Z) : option (Z * Z * Z * Z) :=
  let w := width img in
  let h := height img in
  let v_seps := v_separators img threshold in
  let h_seps := h_separators img threshold in
  if (0 <? length v_seps)%nat && (0 <? length h_seps)%nat then
    let char_width :=
      if (1 <? length v_seps)%nat then nth 1 v_seps 0 - nth 0 v_seps 0 else w in
    let char_height :=
      if (1 <? length h_seps)%nat then nth 1 h_seps 0 - nth 0 h_seps 0 else h in
    let cols :=
      if (1 <? length v_seps)%nat then Z.of_nat (length v_seps) - 1 else 1 in
    let rows :=
      if (1 <? length h_seps)%nat then Z.of_nat (length h_seps) - 1 else 1 in
    Some (cols, rows, char_width, char_height)
  else None.

(** ** Synthetic glyph injection *)

(** [generate_solid_char] updates [pixels] in place; the embedding returns
    the updated buffer. *)
Definition generate_solid_char (pixels : list Z) (w h cols rows char_w char_h : Z)
    : outcome (list Z) :=
  let index := 95 in
  m ← pymod index cols;
  let x0 := m * char_w in
  q ← floordiv index cols;
  let y0 := q * char_h in
  for_each (range char_h)
    (fun pixels dy =>
       for_each (range char_w)
         (fun pixels dx =>
            let x := x0 + dx in
            let y := y0 + dy in
            if (0 <=? x) && (x <? w) && (0 <=? y) && (y <? h)
            then setitem pixels (y * w + x) 255
            else Ok pixels)
         pixels)
    pixels.

(** ** Pipeline orchestration *)

Inductive format : Type := Rust | C | Bin.

(** The parsed command line.  [--grid] and [--char-size] are kept as the
    pairs of integers that [map(int, s.split('x'))] yields; an absent
    option is [None], an absent [--batch] is the empty list. *)
Record args : Type := {
  arg_image : string;
  arg_format : format;
  arg_output : option string;
  arg_grid : option (Z * Z);
  arg_char_size : option (Z * Z);
  arg_solid : bool;
  arg_raw : bool;
  arg_threshold : Z;
  arg_stats : bool;
  arg_preview : option string;
  arg_verify : bool;
  arg_batch : list string;
  arg_list_fonts : bool
}.

(** What a run does to the outside world, in order: diagnostics on the
    error stream, files written, bytes sent to standard output.  The text
    layout of the array literals is left to the formatter; an output event
    records the format and the bytes handed to it. *)
Inductive event : Type :=
  | Banner (img_path : string)
  | Warning (w h char_w char_h : Z)
  | Stats (original_size compressed_size : nat) (w h cols rows char_w char_h : Z)
  | ListFonts (char_count : Z)
  | Preview (path : string) (pixels : list Z)
  | Verified
  | VerifyFailed
  | Saved (path : string) (fmt : format) (data : list Z)
  | Stdout (fmt : format) (data : list Z)
  | Help.

(** Statements that print and may raise: the trace so far goes in, the
    extended trace and the outcome come out. *)
Definition io (A : Type) : Type := list event -> list event * outcome A.

Definition io_ret {A : Type} (a : A) : io A := fun tr => (tr, Ok a).

Definition io_lift {A : Type} (r : outcome A) : io A := fun tr => (tr, r).

Definition emit (e : event) : io unit := fun tr => (tr ++ [e], Ok tt).

#[global] Instance io_mret : MRet io := @io_ret.
#[global] Instance io_mbind : MBind io := fun _ _ f m tr =>
  match m tr with
  | (tr', Ok a) => f a tr'
  | (tr', Raise e) => (tr', Raise e)
  end.

(** Truth value of an optional string: [None] and the empty string are
    false. *)
Definition nonempty (o : option string) : option string :=
  match o with
  | Some s => if String.eqb s EmptyString then None else Some s
  | None => None
  end.

(** The grid layout block of [process_image]. *)
Definition grid_layout (img : image) (a : args) : outcome (Z * Z * Z * Z) :=
  let w := width img in
  let h := height img in
  match arg_grid a, arg_char_size a with
  | Some (cols, rows), Some (char_w, char_h) => Ok (cols, rows, char_w, char_h)
  | Some (cols, rows), None =>
      char_w ← floordiv w cols;
      char_h ← floordiv h rows;
      Ok (cols, rows, char_w, char_h)
  | None, Some (char_w, char_h) =>
      cols ← floordiv w char_w;
      rows ← floordiv h char_h;
      Ok (cols, rows, char_w, char_h)
  | None, None =>
      match detect_grid img (arg_threshold a) with
      | Some detected => Ok detected
      | None =>
          let cols := 16 in
          rows ← floordiv (95 + cols - 1) cols;
          char_w ← floordiv w cols;
          char_h ← floordiv h rows;
          Ok (cols, rows, char_w, char_h)
      end
  end.

(** [print_stats]: the report is printed line by line and its last line
    divides by the compressed size. *)
Definition print_stats (original_size compressed_size : nat)
    (w h cols rows char_w char_h : Z) : io unit :=
  _ ← emit (Stats original_size compressed_size w h cols rows char_w char_h);
  if (compressed_size =? 0)%nat then io_lift (Raise ZeroDivisionError)
  else io_ret tt.

Section Pipeline.

(** The two external collaborators of the orchestrator: the image files
    that can be opened (as grayscale), and the stem of a path. *)
Variable open_image : string -> option image.
Variable stem : string -> string.

Definition load_image (path : string) : outcome image :=
  match open_image path with
  | Some img => Ok img
  | None => Raise OSError
  end.

Definition process_image (image_path : string) (a : args)
    (output_path : option string) : io unit :=
  img ← io_lift (load_image image_path);
  let w := width img in
  let h := height img in
  '(cols, rows, char_w, char_h) ← io_lift (grid_layout img a);
  rw ← io_lift (pymod w char_w);
  uneven ← (if negb (rw =? 0) then io_ret true
            else rh ← io_lift (pymod h char_h); io_ret (negb (rh =? 0)));
  _ ← (if uneven : bool then emit (Warning w h char_w char_h) else io_ret tt);
  let pixels := binarize_image img (arg_threshold a) in
  let original_size := length pixels in
  pixels ← (if arg_solid a
            then io_lift (generate_solid_char pixels w h cols rows char_w char_h)
            else io_ret pixels);
  compressed ← (if arg_raw a then io_ret pixels
                else bit_packed ← io_lift (compress_to_bits pixels);
                     io_lift (rle_compress bit_packed));
  _ ← (if arg_stats a
       then print_stats original_size (length compressed) w h cols rows char_w char_h
       else io_ret tt);
  _ ← (if arg_list_fonts a then
         let char_count := cols * rows in
         _ ← emit (ListFonts char_count);
         if Z.min (32 + char_count - 1) 126 <? 0
         then io_lift (Raise ValueError) else io_ret tt
       else io_ret tt);
  _ ← (match nonempty (arg_preview a) with
       | Some p => emit (Preview p pixels)
       | None => io_ret tt
       end);
  _ ← (if arg_verify a && negb (arg_raw a) then
         decompressed ← io_lift
           (decompress_and_verify compressed (Z.of_nat (length pixels)));
         if bool_decide (decompressed = pixels) then emit Verified
         else _ ← emit VerifyFailed; io_lift (Raise (SystemExit 1))
       else io_ret tt);
  match nonempty output_path with
  | Some p => emit (Saved p (arg_format a) compressed)
  | None => emit (Stdout (arg_format a) compressed)
  end.

(** [args.output or str(Path(img_path).stem) + ".rs"]. *)
Definition batch_output_path (a : args) (img_path : string) : string :=
  match nonempty (arg_output a) with
  | Some o => o
  | None => String.append (stem img_path) ".rs"
  end.

(** The batch loop of [main]. *)
Fixpoint batch_loop (paths : list string) (a : args) : io unit :=
  match paths with
  | [] => io_ret tt
  | img_path :: rest =>
      _ ← emit (Banner img_path);
      let output_path := batch_output_path a img_path in
      _ ← process_image img_path a (Some output_path);
      batch_loop rest a
  end.

Definition main (a : args) : io unit :=
  match arg_batch a with
  | _ :: _ => batch_loop (arg_batch a) a
  | [] =>
      match nonempty (Some (arg_image a)) with
      | None => emit Help
      | Some _ => process_image (arg_image a) a (arg_output a)
      end
  end.

(** Exit status of the interpreter for the outcome of [main]: zero on a
    normal return, the code of a [sys.exit], one for any other uncaught
    exception. *)
Definition exit_status (r : outcome unit) : Z :=
  match r with
  | Ok _ => 0
  | Raise (SystemExit code) => code
  | Raise _ => 1
  end.

Definition run (a : args) : list event * Z :=
  let '(tr, r) := main a [] in (tr, exit_status r).

End Pipeline.

(** The command line with every option at its default. *)
Definition default_args (image : string) : args := {|
  arg_image := image;
  arg_format := Rust;
  arg_output := None;
  arg_grid := None;
  arg_char_size := None;
  arg_solid := false;
  arg_raw := false;
  arg_threshold := 128;
  arg_stats := false;
  arg_preview := None;
  arg_verify := false;
  arg_batch := [];
  arg_list_fonts := false
|}.

(** An image of the given size with every sample equal to [v]. *)
Definition flat_image (w h v : Z) : image :=
  {| width := w; height := h; pixel := fun _ _ => v |}.

(** A two-file world for batch runs: a one-pixel image and an eight-pixel
    image, both white. *)
Definition two_files (path : string) : option image :=
  if String.eqb path "a.png" then Some (flat_image 1 1 255)
  else if String.eqb path "b.png" then Some (flat_image 8 1 255)
  else None.

(** The stem of a path with a three-letter extension. *)
Definition drop_extension (path : string) : string :=
  substring 0 (String.length path - 4) path.

(** The command line [--grid 1x1 --char-size 1x1 --batch paths]. *)
Definition batch_args (paths : list string) : args := {|
  arg_image := "font.png";
  arg_format := Rust;
  arg_output := None;
  arg_grid := Some (1, 1);
  arg_char_size := Some (1, 1);
  arg_solid := false;
  arg_raw := false;
  arg_threshold := 128;
  arg_stats := false;
  arg_preview := None;
  arg_verify := false;
  arg_batch := paths;
  arg_list_fonts := false
|}.

(** An outcome that is not a [sys.exit], and a statement that never ends
    the process with status zero by raising. *)
Definition no_exit {A : Type} (r : outcome A) : Prop :=
  forall code : Z, r <> Raise (SystemExit code).

Definition fatal_nonzero {A : Type} (m : io A) : Prop :=
  forall (tr tr' : list event) (e : exn),
    m tr = (tr', Raise e) -> exit_status (Raise e) <> 0.

(** ** Reading an encoded stream as a sequence of tokens *)

(** The encoded stream is a sequence of tokens: a literal byte standing
    alone, or the escape byte [0x00] followed by a count byte. *)
Inductive token : Type :=
  | Lit (b : Z)
  | Run (count : Z).

Definition token_bytes (t : token) : list Z :=
  match t with
  | Lit b => [b]
  | Run count => [0; count]
  end.

Definition token_expand (t : token) : list Z :=
  match t with
  | Lit b => [b]
  | Run count => replicate (Z.to_nat count) 0
  end.

(** A literal token never holds the escape byte. *)
Definition literal_nonzero (t : token) : Prop :=
  match t with
  | Lit b => b <> 0
  | Run _ => True
  end.

(** Tokens as the encoder writes them: counts lie in [1, 255]. *)
Definition encoder_token (t : token) : Prop :=
  match t with
  | Lit b => b <> 0
  | Run count => 1 <= count <= 255
  end.

(** The decoder as a function of the rest of the stream. *)
Fixpoint decode_list (l : list Z) : list Z :=
  match l with
  | [] => []
  | b :: tl =>
      if b =? 0 then
        match tl with
        | [] => [0]
        | count :: tl' => replicate (Z.to_nat count) 0 ++ decode_list tl'
        end
      else b :: decode_list tl
  end.

(** How many further zero bytes the inner loop of the encoder takes from
    the rest of the input when it is entered with [count]. *)
Fixpoint run_length (l : list Z) (count : Z) : nat :=
  match l with
  | d :: tl => if (d =? 0) && (count <? 255) then S (run_length tl (count + 1)) else O
  | [] => O
  end.

(** ** Reading the packer loop by loop *)

(** The value the inner loop of [compress_to_bits] builds from the pixels
    [l], entered with [byte]. *)
Definition bits_value (l : list Z) (byte : Z) : Z :=
  fold_left (fun byte p => Z.lor (Z.shiftl byte 1) (if p =? 255 then 1 else 0)) l byte.

(** The packed byte of the [c]-th group of eight pixels. *)
Definition chunk_byte (pixels : list Z) (c : nat) : Z :=
  bits_value (take 8 (drop (8 * c) pixels)) 0.

(** The eight pixels one byte unpacks to. *)
Definition byte_pixels (byte : Z) : list Z :=
  map (fun bit => if Z.land byte (Z.shiftl 1 (7 - bit)) =? 0 then 0 else 255) (range 8).

(** A binarized pixel. *)
Definition binary_pixel (p : Z) : Prop := p = 0 \/ p = 255.

(** ** The encoder as a function of the rest of the input *)

(** The tokens the encoder writes for the input [l]; [n] bounds the number
    of tokens and [length l] is always enough. *)
Fixpoint tokenize (n : nat) (l : list Z) : list token :=
  match n with
  | O => []
  | S n' =>
      match l with
      | [] => []
      | d :: tl =>
          if d =? 0 then
            let k := run_length tl 1 in
            Run (1 + Z.of_nat k) :: tokenize n' (drop k tl)
          else Lit d :: tokenize n' tl
      end
  end.

(** No zero run is split before it has reached 255 bytes: a run token that
    is followed by another run token carries the count 255. *)
Fixpoint runs_maximal (ts : list token) : Prop :=
  match ts with
  | Run count :: ((Run _ :: _) as rest) => count = 255 /\ runs_maximal rest
  | _ :: rest => runs_maximal rest
  | [] => True
  end.

(** A byte value. *)
Definition is_byte (b : Z) : Prop := 0 <= b < 256.

(** ** Buffers before and after glyph injection *)

(** [pixels'] has the length of [pixels] and differs from it only where it
    holds [0xFF]. *)
Definition only_painted (pixels pixels' : list Z) : Prop :=
  length pixels' = length pixels
  /\ forall k : nat, pixels' !! k = pixels !! k \/ pixels' !! k = Some 255.

(** ** Specifications of printing statements *)

(** The event that hands the output over: a file written, or the bytes on
    standard output. *)
Definition output_event (output_path : option string) (fmt : format)
    (data : list Z) : event :=
  match nonempty output_path with
  | Some p => Saved p fmt data
  | None => Stdout fmt data
  end.

(** [io_spec I E m Q]: a run of [m] only appends events to the trace, each
    of them satisfying [I]; when it returns [a] after appending [new],
    [Q new a] holds; when it raises [e], [E e] holds. *)
Definition io_spec {A : Type} (I : event -> Prop) (E : exn -> Prop)
    (m : io A) (Q : list event -> A -> Prop) : Prop :=
  forall (tr tr' : list event) (r : outcome A),
    m tr = (tr', r) ->
    exists new : list event,
      tr' = tr ++ new
      /\ Forall I new
      /\ match r with
         | Ok a => Q new a
         | Raise e => E e
         end.

(** A run of [m] does not look at the trace it extends. *)
Definition io_framed {A : Type} (m : io A) : Prop :=
  forall tr : list event, m tr = (tr ++ fst (m []), snd (m [])).

(** An exception other than [sys.exit]. *)
Definition not_exit (e : exn) : Prop :=
  forall code : Z, e <> SystemExit code.

(** ** Output formatting *)

(** The digit of [d] in [0, 16), in lower case. *)
Definition hex_digit (d : Z) : ascii :=
  nth (Z.to_nat d) (list_ascii_of_string "0123456789abcdef") "0"%char.

(** The hexadecimal digits of a non-negative integer, put in front of
    [acc]; [fuel] bounds the number of digits. *)
Fixpoint hex_digits (fuel : nat) (n : Z) (acc : string) : string :=
  match fuel with
  | O => acc
  | S fuel' =>
      let acc := String (hex_digit (n mod 16)) acc in
      if n / 16 =? 0 then acc else hex_digits fuel' (n / 16) acc
  end.

Definition zero_pad (width : nat) (s : string) : string :=
  String.append
    (string_of_list_ascii (replicate (width - String.length s) "0"%char)) s.

(** The format [f"{b:#04x}"]: sign, the prefix [0x], then the digits padded
    with zeros to a total width of at least four characters. *)
Definition format_hex (b : Z) : string :=
  let digits :=
    hex_digits (S (Z.to_nat (Z.log2 (Z.abs b)))) (Z.abs b) EmptyString in
  if b <? 0 then String.append "-0x" (zero_pad 1 digits)
  else String.append "0x" (zero_pad 2 digits).

(** [str(n)] for a length. *)
Definition str_nat (n : nat) : string := NilZero.string_of_uint (Nat.to_uint n).

Definition newline : string := String "010"%char EmptyString.

(** One line of an array literal: the chunk's entries, indented, separated
    by a comma and a space, closed by a comma. *)
Definition data_line (chunk : list Z) : string :=
  String.append "    "
    (String.append (String.concat ", " (map format_hex chunk)) ",").

(** The loop shared by [format_rust] and [format_c]: one line is appended
    for every sixteen bytes of [data]. *)
Definition data_lines (lines : list string) (data : list Z) : list string :=
  fold_left
    (fun lines i =>
       let chunk := take 16 (drop (Z.to_nat i) data) in
       lines ++ [data_line chunk])
    (range_step (Z.of_nat (length data)) 16) lines.

Definition source_comment : string :=
  "// https://github.com/everybitco/font_compress".

(** The list [lines] of [format_rust] before it is joined. *)
Definition format_rust_lines (data : list Z) (name : string) : list string :=
  data_lines
    [source_comment; EmptyString;
     String.append "const "
       (String.append name
          (String.append ": [u8; "
             (String.append (str_nat (length data)) "] = [")))]
    data
  ++ ["];"%string].

Definition format_rust (data : list Z) (name : string) : string :=
  String.concat newline (format_rust_lines data name).

(** The list [lines] of [format_c] before it is joined. *)
Definition format_c_lines (data : list Z) (name : string) : list string :=
  data_lines
    [source_comment; EmptyString;
     String.append "const unsigned char "
       (String.append name
          (String.append "["
             (String.append (str_nat (length data)) "] = {")))]
    data
  ++ ["};"%string].

Definition format_c (data : list Z) (name : string) : string :=
  String.concat newline (format_c_lines data name).

(** [bytes(data)]: every element has to be a byte. *)
Definition format_binary (data : list Z) : outcome (list Z) :=
  if forallb (fun b => (0 <=? b) && (b <? 256)) data then Ok data
  else Raise ValueError.

(** The formatting step of [process_image] for the format of an output
    event: text for the array literals, bytes for [bin]. *)
Definition format_output (fmt : format) (data : list Z)
    : outcome (string + list Z) :=
  match fmt with
  | Rust => Ok (inl (format_rust data "COMPRESSED_FONT"))
  | C => Ok (inl (format_c data "COMPRESSED_FONT"))
  | Bin => bytes ← format_binary data; Ok (inr bytes)
  end.

(** ** Reading an array literal back *)

Definition hex_value (c : ascii) : option Z :=
  option_map Z.of_nat
    (List.find (fun k => Ascii.eqb (hex_digit (Z.of_nat k)) c) (seq 0 16)).

(** The entries of a line after its indentation: [0x] and two digits, then
    either the closing comma or a comma, a space and the next entry. *)
Fixpoint parse_entries (s : string) : option (list Z) :=
  match s with
  | String "0" (String "x" (String c1 (String c2 rest))) =>
      match hex_value c1, hex_value c2 with
      | Some hi, Some lo =>
          match rest with
          | String "," EmptyString => Some [16 * hi + lo]
          | String "," (String " " rest') =>
              option_map (cons (16 * hi + lo)) (parse_entries rest')
          | _ => None
          end
      | _, _ => None
      end
  | _ => None
  end.

Definition parse_line (s : string) : option (list Z) :=
  match s with
  | String " " (String " " (String " " (String " " rest))) => parse_entries rest
  | _ => None
  end.

Fixpoint parse_lines (ls : list string) : option (list Z) :=
  match ls with
  | [] => Some []
  | l :: ls' =>
      match parse_line l, parse_lines ls' with
      | Some entries, Some more => Some (entries ++ more)
      | _, _ => None
      end
  end.

(** The bytes of an array literal given by its lines: everything between
    the three opening lines and the closing line. *)
Definition parse_array (lines : list string) : option (list Z) :=
  parse_lines (take (length lines - 4) (drop 3 lines)).

(** Does [format_hex] write the byte [n] as [0x] and two digits that read
    back as [n]? *)
Definition hex_entry_ok (n : nat) : bool :=
  match format_hex (Z.of_nat n) with
  | String c (String c' (String c1 (String c2 EmptyString))) =>
      Ascii.eqb c "0" && Ascii.eqb c' "x"
      && match hex_value c1, hex_value c2 with
         | Some hi, Some lo => 16 * hi + lo =? Z.of_nat n
         | _, _ => false
         end
  | _ => false
  end.

(** * Properties *)

(** ** The functions on small inputs *)

Example pack_all_set :
  compress_to_bits (replicate 8 255) = Ok [255]
  /\ rle_compress [255] = Ok [255]
  /\ decompress_and_verify [255] 8 = Ok (replicate 8 255).
Proof. repeat split. Qed.

Example pack_clear_then_set :
  compress_to_bits (replicate 8 0 ++ replicate 8 255) = Ok [0; 255]
  /\ rle_compress [0; 255] = Ok [0; 1; 255]
  /\ rle_decode [0; 1; 255] 2 = Ok [0; 255].
Proof. repeat split. Qed.

Example pack_bit_order :
  compress_to_bits [255; 0; 0; 0; 0; 0; 255; 255] = Ok [131].
Proof. reflexivity. Qed.

Example pack_odd_length : compress_to_bits [255; 0; 255] = Raise AssertionError.
Proof. reflexivity. Qed.

Example encode_mixed :
  rle_compress [7; 0; 0; 0; 9; 0] = Ok [7; 0; 3; 9; 0; 1].
Proof. reflexivity. Qed.

Example decode_malformed :
  rle_decode_bytes [5; 0; 0; 6; 0] = Ok [5; 6; 0].
Proof. reflexivity. Qed.

Example detect_two_separators :
  detect_grid
    {| width := 20; height := 16;
       pixel := fun x y =>
         if (x =? 5) || (x =? 15) || (y =? 3) || (y =? 13) then 0 else 255 |}
    128
  = Some (1, 1, 10, 10).
Proof. vm_compute. reflexivity. Qed.

Example solid_last_cell :
  generate_solid_char (replicate 96 0) 16 6 16 6 1 1
  = Ok (replicate 95 0 ++ [255]).
Proof. vm_compute. reflexivity. Qed.

Example solid_zero_columns :
  generate_solid_char (replicate 4 0) 2 2 0 1 1 1 = Raise ZeroDivisionError.
Proof. reflexivity. Qed.

(** ** Lists and cursors *)

Lemma drop_nth_cons (l : list Z) (i : nat) :
  (i < length l)%nat -> drop i l = nth i l 0 :: drop (S i) l.
Proof.
  intros Hi.
  destruct (lookup_lt_is_Some_2 l i Hi) as [x Hx].
  rewrite (nth_lookup_Some _ _ 0 _ Hx).
  by apply drop_S.
Qed.

Lemma getitem_nth (l : list Z) (i : nat) :
  (i < length l)%nat -> getitem l (Z.of_nat i) = Ok (nth i l 0).
Proof.
  intros Hi. unfold getitem, py_index.
  destruct (Z.leb_spec 0 (Z.of_nat i)); [|lia].
  destruct (Z.ltb_spec (Z.of_nat i) (Z.of_nat (length l))); [|lia].
  cbn [andb]. rewrite Nat2Z.id.
  destruct (lookup_lt_is_Some_2 l i Hi) as [x Hx].
  by rewrite Hx, (nth_lookup_Some _ _ 0 _ Hx).
Qed.

(** ** The decoding loop *)

Lemma rle_decode_loop_spec (fuel : nat) (compressed : list Z) :
  forall (i : nat) (result : list Z),
    (length compressed - i < fuel)%nat ->
    rle_decode_loop fuel compressed i result
    = Ok (result ++ decode_list (drop i compressed)).
Proof.
  induction fuel as [|fuel IH]; intros i result Hfuel; [lia|].
  cbn [rle_decode_loop].
  destruct (Nat.ltb_spec i (length compressed)) as [Hi|Hi].
  - rewrite (drop_nth_cons _ _ Hi), (getitem_nth _ _ Hi). cbn [decode_list mbind outcome_bind].
    destruct (Z.eqb_spec (nth i compressed 0) 0) as [Hz|Hz].
    + destruct (Nat.ltb_spec (i + 1) (length compressed)) as [Hi'|Hi'].
      * rewrite (getitem_nth _ _ Hi'). cbn [mbind outcome_bind].
        rewrite IH by lia.
        rewrite (drop_nth_cons compressed (S i)) by lia.
        replace (S i) with (i + 1)%nat by lia.
        replace (S (i + 1)) with (i + 2)%nat by lia.
        by rewrite <- app_assoc.
      * rewrite IH by lia.
        replace (i + 1)%nat with (S i) by lia.
        rewrite (drop_ge compressed (S i)) by lia.
        cbn [decode_list]. by rewrite app_nil_r.
    + rewrite IH by lia.
      replace (i + 1)%nat with (S i) by lia.
      by rewrite <- app_assoc.
  - rewrite drop_ge by lia. cbn [decode_list]. by rewrite app_nil_r.
Qed.

Lemma rle_decode_bytes_list (compressed : list Z) :
  rle_decode_bytes compressed = Ok (decode_list compressed).
Proof.
  unfold rle_decode_bytes.
  by rewrite rle_decode_loop_spec by lia.
Qed.

Lemma decode_list_token (t : token) (rest : list Z) :
  literal_nonzero t ->
  decode_list (token_bytes t ++ rest) = token_expand t ++ decode_list rest.
Proof.
  destruct t as [b|count]; cbn; intros Hb.
  - by destruct (Z.eqb_spec b 0).
  - done.
Qed.

Lemma decode_list_tokens (ts : list token) (rest : list Z) :
  Forall literal_nonzero ts ->
  decode_list (flat_map token_bytes ts ++ rest)
  = flat_map token_expand ts ++ decode_list rest.
Proof.
  induction 1 as [|t ts Ht _ IH]; [done|].
  cbn [flat_map]. rewrite <- !app_assoc.
  by rewrite decode_list_token, IH.
Qed.

Lemma encoder_token_literal (t : token) : encoder_token t -> literal_nonzero t.
Proof. by destruct t. Qed.

(** ** The encoding loops *)

Lemma run_length_zeros (l : list Z) :
  forall count : Z, take (run_length l count) l = replicate (run_length l count) 0.
Proof.
  induction l as [|d tl IH]; intros count; [done|].
  cbn [run_length].
  destruct (Z.eqb_spec d 0) as [->|Hd]; [|done].
  destruct (count <? 255); [|done].
  cbn. by rewrite IH.
Qed.

Lemma run_length_bound (l : list Z) :
  forall count : Z, count <= 255 -> count + Z.of_nat (run_length l count) <= 255.
Proof.
  induction l as [|d tl IH]; intros count Hc; cbn [run_length]; [lia|].
  destruct (d =? 0); cbn; [|lia].
  destruct (Z.ltb_spec count 255); [|lia].
  specialize (IH (count + 1)). lia.
Qed.

Lemma zero_run_spec (fuel : nat) (data : list Z) :
  forall (i : nat) (count : Z),
    (length data - i < fuel)%nat ->
    zero_run fuel data i count
    = Ok ((i + run_length (drop i data) count)%nat,
          count + Z.of_nat (run_length (drop i data) count)).
Proof.
  induction fuel as [|fuel IH]; intros i count Hfuel; [lia|].
  cbn [zero_run].
  destruct (Nat.ltb_spec i (length data)) as [Hi|Hi].
  - rewrite (drop_nth_cons _ _ Hi), (getitem_nth _ _ Hi).
    cbn [run_length mbind outcome_bind].
    destruct ((nth i data 0 =? 0) && (count <? 255)).
    + rewrite IH by lia.
      replace (i + 1)%nat with (S i) by lia.
      f_equal. f_equal; lia.
    + f_equal. f_equal; lia.
  - rewrite drop_ge by lia. cbn. f_equal. f_equal; lia.
Qed.

Lemma rle_loop_tokens (fuel : nat) (data : list Z) :
  forall (i : nat) (result : list Z),
    (length data - i < fuel)%nat ->
    exists ts : list token,
      rle_loop fuel data i result = Ok (result ++ flat_map token_bytes ts)
      /\ drop i data = flat_map token_expand ts
      /\ Forall encoder_token ts.
Proof.
  induction fuel as [|fuel IH]; intros i result Hfuel; [lia|].
  cbn [rle_loop].
  destruct (Nat.ltb_spec i (length data)) as [Hi|Hi].
  - rewrite (drop_nth_cons _ _ Hi), (getitem_nth _ _ Hi).
    cbn [mbind outcome_bind].
    destruct (Z.eqb_spec (nth i data 0) 0) as [Hz|Hz].
    + rewrite zero_run_spec by lia. cbn [mbind outcome_bind].
      set (k := run_length (drop (i + 1) data) 1).
      destruct (IH (i + 1 + k)%nat ((result ++ [nth i data 0]) ++ [1 + Z.of_nat k]))
        as (ts & Hts & Hdrop & Hok); [lia|].
      exists (Run (1 + Z.of_nat k) :: ts). split; [|split].
      * rewrite Hts, Hz. cbn [flat_map token_bytes].
        by rewrite <- !app_assoc.
      * rewrite Hz. cbn [flat_map token_expand].
        replace (Z.to_nat (1 + Z.of_nat k)) with (S k) by lia.
        cbn [replicate]. rewrite <- app_comm_cons. f_equal.
        rewrite <- Hdrop, <- (drop_drop data k (i + 1)).
        replace (S i) with (i + 1)%nat by lia.
        pose proof (run_length_zeros (drop (i + 1) data) 1) as Hrun.
        fold k in Hrun. rewrite <- Hrun. by rewrite take_drop.
      * constructor; [|done]. cbn.
        pose proof (run_length_bound (drop (i + 1) data) 1) as Hb.
        fold k in Hb. lia.
    + destruct (IH (i + 1)%nat (result ++ [nth i data 0]))
        as (ts & Hts & Hdrop & Hok); [lia|].
      exists (Lit (nth i data 0) :: ts). split; [|split].
      * rewrite Hts. cbn [flat_map token_bytes]. by rewrite <- !app_assoc.
      * cbn [flat_map token_expand]. cbn. f_equal.
        by replace (S i) with (i + 1)%nat by lia.
      * by constructor.
  - exists []. rewrite drop_ge by lia. cbn. by rewrite app_nil_r.
Qed.

Lemma rle_compress_tokens (data : list Z) :
  exists ts : list token,
    rle_compress data = Ok (flat_map token_bytes ts)
    /\ data = flat_map token_expand ts
    /\ Forall encoder_token ts.
Proof.
  unfold rle_compress.
  destruct (rle_loop_tokens (S (length data)) data 0 []) as (ts & -> & Hd & Hok); [lia|].
  by exists ts.
Qed.

Lemma decode_encoder_tokens (ts : list token) :
  Forall encoder_token ts ->
  decode_list (flat_map token_bytes ts) = flat_map token_expand ts.
Proof.
  intros Hok.
  rewrite <- (app_nil_r (flat_map token_bytes ts)).
  rewrite decode_list_tokens.
  - cbn. by rewrite app_nil_r.
  - eapply Forall_impl; [exact Hok|]. apply encoder_token_literal.
Qed.

Lemma literal_tokens_verbatim (ts : list token) :
  Forall encoder_token ts ->
  Forall (fun b => b <> 0) (flat_map token_expand ts) ->
  flat_map token_bytes ts = flat_map token_expand ts.
Proof.
  induction 1 as [|t ts Ht _ IH]; [done|].
  cbn [flat_map]. intros Hnz. apply Forall_app in Hnz as [Hhead Htail].
  rewrite (IH Htail). f_equal.
  destruct t as [b|count]; [done|].
  cbn in Ht, Hhead. exfalso.
  replace (Z.to_nat count) with (S (Z.to_nat (count - 1))) in Hhead by lia.
  cbn in Hhead. by inversion Hhead.
Qed.

Lemma slice_to_length (l : list Z) : slice_to l (Z.of_nat (length l)) = l.
Proof.
  unfold slice_to.
  destruct (Z.leb_spec 0 (Z.of_nat (length l))); [|lia].
  rewrite Nat2Z.id. by apply take_ge.
Qed.

(** ** Claims on the RLE codec *)

(** C1.  Round trip of the RLE codec: for every byte sequence [B], the
    encoder returns a stream, and decoding that stream with expected length
    [len(B)] returns [B] itself. *)
Theorem C1_rle_round_trip (B : list Z) :
  exists encoded : list Z,
    rle_compress B = Ok encoded
    /\ rle_decode encoded (Z.of_nat (length B)) = Ok B.
Proof.
  destruct (rle_compress_tokens B) as (ts & Henc & Hdata & Hok).
  exists (flat_map token_bytes ts). split; [done|].
  unfold rle_decode. rewrite rle_decode_bytes_list. cbn [mbind outcome_bind].
  rewrite (decode_encoder_tokens _ Hok), <- Hdata.
  by rewrite slice_to_length.
Qed.

(** C4.  Structure of the encoded stream: the output of [rle_compress] is a
    sequence of tokens whose expansions make up the input; a token is
    either a non-zero byte standing alone (a literal, emitted as itself
    with no count byte) or the byte [0x00] immediately followed by a count
    byte in [1, 255] (standing for that many input zeros).  In particular
    an input without [0x00] bytes is encoded as itself. *)
Theorem C4_rle_stream_structure (data : list Z) :
  (exists ts : list token,
      rle_compress data = Ok (flat_map token_bytes ts)
      /\ data = flat_map token_expand ts
      /\ Forall encoder_token ts)
  /\ (Forall (fun b => b <> 0) data -> rle_compress data = Ok data).
Proof.
  destruct (rle_compress_tokens data) as (ts & Henc & Hdata & Hok).
  split; [by exists ts|].
  intros Hnz. rewrite Henc. f_equal. subst data.
  by apply literal_tokens_verbatim.
Qed.

Lemma C4_rle_stream_structure_witness :
  Forall (fun b => b <> 0) [1; 255; 7] /\ rle_compress [1; 255; 7] = Ok [1; 255; 7].
Proof.
  assert (Hnz : Forall (fun b => b <> 0) [1; 255; 7]) by (repeat constructor; lia).
  split; [exact Hnz|].
  exact (proj2 (C4_rle_stream_structure [1; 255; 7]) Hnz).
Defined.

(** C5.  Run splitting at the 255 boundary: 255 zero bytes are encoded as
    [0x00, 255], and 256 zero bytes as [0x00, 255, 0x00, 1]. *)
Theorem C5_run_split_boundary :
  rle_compress (replicate 255 0) = Ok [0; 255]
  /\ rle_compress (replicate 256 0) = Ok [0; 255; 0; 1].
Proof. split; vm_compute; reflexivity. Qed.

(** ** The bit packer *)

Lemma pack_byte_loop (pixels : list Z) (i : nat) :
  forall (n s : nat) (byte : Z),
    (i + s + n <= length pixels)%nat ->
    for_each (map Z.of_nat (seq s n))
      (fun byte j =>
         p ← getitem pixels (Z.of_nat i + j);
         Ok (Z.lor (Z.shiftl byte 1) (if p =? 255 then 1 else 0)))
      byte
    = Ok (bits_value (take n (drop (i + s) pixels)) byte).
Proof.
  induction n as [|n IH]; intros s byte Hlen; [done|].
  cbn [seq map for_each].
  rewrite <- Nat2Z.inj_add, getitem_nth by lia.
  cbn [mbind outcome_bind].
  rewrite IH by lia.
  rewrite (drop_nth_cons pixels (i + s)) by lia.
  cbn [take bits_value fold_left].
  by replace (i + S s)%nat with (S (i + s)) by lia.
Qed.

Lemma pack_byte_chunk (pixels : list Z) (c : nat) :
  (8 * c + 8 <= length pixels)%nat ->
  pack_byte pixels (Z.of_nat c * 8) = Ok (chunk_byte pixels c).
Proof.
  intros Hlen. unfold pack_byte, chunk_byte, range.
  replace (Z.of_nat c * 8) with (Z.of_nat (8 * c)) by lia.
  change (Z.to_nat 8) with 8%nat.
  rewrite (pack_byte_loop pixels (8 * c) 8 0 0) by lia.
  by rewrite Nat.add_0_r.
Qed.

Lemma lor_shift_bit (byte b : Z) :
  0 <= b <= 1 -> Z.lor (Z.shiftl byte 1) b = 2 * byte + b.
Proof.
  intros Hb.
  rewrite Z.shiftl_mul_pow2 by lia. change (2 ^ 1) with 2.
  replace (byte * 2) with (2 * byte) by lia.
  assert (Hdisj : Z.land (2 * byte) b = 0).
  { assert (b = 0 \/ b = 1) as [->| ->] by lia.
    - apply Z.land_0_r.
    - apply Z.bits_inj'. intros n Hn. rewrite Z.land_spec, Z.bits_0.
      destruct (Z.eq_dec n 0) as [->|Hn0].
      + by rewrite Z.testbit_even_0.
      + replace n with (Z.succ (n - 1)) by lia.
        change 1 with (2 * 0 + 1) at 2. rewrite Z.testbit_odd_succ by lia.
        rewrite Z.bits_0. apply andb_false_r. }
  rewrite <- (Z.lxor_lor _ _ Hdisj).
  symmetry. by apply Z.add_nocarry_lxor.
Qed.

Lemma bits_value_range (l : list Z) :
  forall byte : Z,
    0 <= byte ->
    0 <= bits_value l byte < (byte + 1) * 2 ^ Z.of_nat (length l).
Proof.
  induction l as [|p tl IH]; intros byte Hb.
  - cbn. lia.
  - cbn [bits_value fold_left length].
    set (b := if p =? 255 then 1 else 0).
    assert (Hbit : 0 <= b <= 1) by (subst b; destruct (p =? 255); lia).
    rewrite (lor_shift_bit _ _ Hbit).
    specialize (IH (2 * byte + b)). unfold bits_value in IH.
    rewrite Nat2Z.inj_succ, Z.pow_succ_r by lia.
    nia.
Qed.

Lemma bits_value_testbit (l : list Z) :
  forall byte n : Z,
    0 <= n ->
    Z.testbit (bits_value l byte) n
    = if n <? Z.of_nat (length l)
      then nth (Z.to_nat (Z.of_nat (length l) - 1 - n)) l 0 =? 255
      else Z.testbit byte (n - Z.of_nat (length l)).
Proof.
  induction l as [|p tl IH]; intros byte n Hn.
  - cbn [length bits_value fold_left].
    destruct (Z.ltb_spec n (Z.of_nat 0)); [lia|].
    f_equal. lia.
  - cbn [bits_value fold_left]. fold (bits_value tl).
    change (bits_value tl ?b) with (bits_value tl b).
    assert (Hbit : (if p =? 255 then 1 else 0) = Z.b2z (p =? 255))
      by (by destruct (p =? 255)).
    rewrite lor_shift_bit by (destruct (p =? 255); lia).
    rewrite Hbit.
    unfold bits_value in IH |- *. rewrite IH by lia. clear IH.
    cbn [length]. rewrite Nat2Z.inj_succ.
    destruct (Z.ltb_spec n (Z.of_nat (length tl))) as [Hlt|Hge].
    + destruct (Z.ltb_spec n (Z.succ (Z.of_nat (length tl)))); [|lia].
      replace (Z.to_nat (Z.succ (Z.of_nat (length tl)) - 1 - n))
        with (S (Z.to_nat (Z.of_nat (length tl) - 1 - n))) by lia.
      done.
    + destruct (Z.ltb_spec n (Z.succ (Z.of_nat (length tl)))) as [Hlt'|Hge'].
      * replace (n - Z.of_nat (length tl)) with 0 by lia.
        rewrite Z.testbit_0_r.
        replace (Z.to_nat (Z.succ (Z.of_nat (length tl)) - 1 - n)) with 0%nat by lia.
        done.
      * replace (n - Z.of_nat (length tl))
          with (Z.succ (n - Z.succ (Z.of_nat (length tl)))) by lia.
        by rewrite Z.testbit_succ_r by lia.
Qed.

Lemma land_bit_test (b k : Z) :
  0 <= k -> (Z.land b (Z.shiftl 1 k) =? 0) = negb (Z.testbit b k).
Proof.
  intros Hk. rewrite Z.shiftl_1_l.
  destruct (Z.testbit b k) eqn:Hbit; cbn [negb].
  - assert (Z.land b (2 ^ k) = 2 ^ k) as ->.
    { apply Z.bits_inj'. intros n Hn.
      rewrite Z.land_spec, Z.pow2_bits_eqb by lia.
      destruct (Z.eqb_spec k n) as [<-|Hne]; [by rewrite Hbit|apply andb_false_r]. }
    apply Z.eqb_neq. pose proof (Z.pow_pos_nonneg 2 k). lia.
  - assert (Z.land b (2 ^ k) = 0) as ->; [|done].
    apply Z.bits_inj'. intros n Hn.
    rewrite Z.land_spec, Z.pow2_bits_eqb, Z.bits_0 by lia.
    destruct (Z.eqb_spec k n) as [<-|Hne]; [by rewrite Hbit|apply andb_false_r].
Qed.

Lemma chunk_byte_range (pixels : list Z) (c : nat) :
  0 <= chunk_byte pixels c < 256.
Proof.
  unfold chunk_byte.
  pose proof (bits_value_range (take 8 (drop (8 * c) pixels)) 0 ltac:(lia)) as Hr.
  assert (Hlen : (length (take 8 (drop (8 * c) pixels)) <= 8)%nat)
    by (rewrite length_take; lia).
  assert (2 ^ Z.of_nat (length (take 8 (drop (8 * c) pixels))) <= 2 ^ 8)
    by (apply Z.pow_le_mono_r; lia).
  change (2 ^ 8) with 256 in *. lia.
Qed.

Lemma compress_loop (pixels : list Z) (m : nat) :
  length pixels = (8 * m)%nat ->
  forall (n k : nat) (done_bytes : list Z),
    (k + n)%nat = m ->
    length done_bytes = k ->
    for_each (map (fun c => Z.of_nat c * 8) (seq k n))
      (fun compressed i =>
         byte ← pack_byte pixels i;
         bytearray_setitem compressed (i / 8) byte)
      (done_bytes ++ replicate n 0)
    = Ok (done_bytes ++ map (chunk_byte pixels) (seq k n)).
Proof.
  intros Hlen. induction n as [|n IH]; intros k done_bytes Hk Hdone; [done|].
  cbn [seq map for_each replicate].
  rewrite pack_byte_chunk by lia. cbn [mbind outcome_bind].
  rewrite Z.div_mul by lia.
  unfold bytearray_setitem, py_index.
  rewrite length_app, Hdone. cbn [length].
  destruct (Z.leb_spec 0 (Z.of_nat k)); [|lia].
  destruct (Z.ltb_spec (Z.of_nat k) (Z.of_nat (k + S (length (replicate n 0))))); [|lia].
  cbn [andb].
  pose proof (chunk_byte_range pixels k) as Hr.
  destruct (Z.leb_spec 0 (chunk_byte pixels k)); [|lia].
  destruct (Z.ltb_spec (chunk_byte pixels k) 256); [|lia].
  cbn [andb]. rewrite Nat2Z.id.
  rewrite insert_app_r_alt by lia.
  rewrite Hdone, Nat.sub_diag. cbn [list_insert insert].
  specialize (IH (S k) (done_bytes ++ [chunk_byte pixels k])).
  rewrite <- !app_assoc in IH. cbn [app] in IH.
  apply IH; [lia|]. rewrite length_app. cbn. lia.
Qed.

Lemma compress_to_bits_chunks (pixels : list Z) (m : nat) :
  length pixels = (8 * m)%nat ->
  compress_to_bits pixels = Ok (map (chunk_byte pixels) (seq 0 m)).
Proof.
  intros Hlen. unfold compress_to_bits, range_step. rewrite Hlen.
  replace (Z.of_nat (8 * m) mod 8) with 0
    by (symmetry; apply Z.mod_divide; [lia|exists (Z.of_nat m); lia]).
  cbn [Z.eqb].
  replace ((Z.of_nat (8 * m) + 8 - 1) / 8) with (Z.of_nat m)
    by (apply Z.div_unique with (r := 7); lia).
  replace (Z.of_nat (8 * m) / 8) with (Z.of_nat m)
    by (apply Z.div_unique with (r := 0); lia).
  rewrite Nat2Z.id.
  apply (compress_loop pixels m Hlen m 0 []); [lia|done].
Qed.

Lemma nth_map_seq {A : Type} (f : nat -> A) (d : A) :
  forall n k i : nat, (i < n)%nat -> nth i (map f (seq k n)) d = f (k + i)%nat.
Proof.
  induction n as [|n IH]; intros k i Hi; [lia|].
  destruct i as [|i]; cbn [seq map nth].
  - by rewrite Nat.add_0_r.
  - rewrite IH by lia. f_equal. lia.
Qed.

Lemma chunk_byte_testbit (pixels : list Z) (c j : nat) :
  (8 * c + 8 <= length pixels)%nat ->
  (j < 8)%nat ->
  Z.testbit (chunk_byte pixels c) (7 - Z.of_nat j)
  = (nth (8 * c + j) pixels 0 =? 255).
Proof.
  intros Hlen Hj. unfold chunk_byte.
  rewrite bits_value_testbit by lia.
  assert (Hl : length (take 8 (drop (8 * c) pixels)) = 8%nat).
  { rewrite length_take, length_drop. lia. }
  rewrite Hl.
  destruct (Z.ltb_spec (7 - Z.of_nat j) (Z.of_nat 8)); [|lia].
  replace (Z.to_nat (Z.of_nat 8 - 1 - (7 - Z.of_nat j))) with j by lia.
  rewrite !nth_lookup, lookup_take_lt, lookup_drop by lia.
  done.
Qed.

Lemma divide_8_length (pixels : list Z) :
  Nat.divide 8 (length pixels) <-> Z.of_nat (length pixels) mod 8 = 0.
Proof.
  split.
  - intros [m Hm]. rewrite Hm. apply Z.mod_divide; [lia|].
    exists (Z.of_nat m). lia.
  - intros Hmod. exists (Z.to_nat (Z.of_nat (length pixels) / 8)).
    pose proof (Z.div_mod (Z.of_nat (length pixels)) 8 ltac:(lia)).
    pose proof (Z.div_pos (Z.of_nat (length pixels)) 8 ltac:(lia) ltac:(lia)).
    lia.
Qed.

(** ** Claims on the bit packer *)

(** C3.  [compress_to_bits] fails with the invalid-length error (the
    assertion) exactly when the pixel count is not divisible by 8.  On an
    input whose length is divisible by 8 it returns [length / 8] bytes, and
    bit [7 - j] of byte [i] is 1 exactly when pixel [8 * i + j] equals
    [0xFF]; every output value is a byte. *)
Theorem C3_compress_to_bits (pixels : list Z) :
  (compress_to_bits pixels = Raise AssertionError
   <-> ~ Nat.divide 8 (length pixels))
  /\ (Nat.divide 8 (length pixels) ->
      exists packed : list Z,
        compress_to_bits pixels = Ok packed
        /\ length packed = (length pixels / 8)%nat
        /\ Forall (fun b => 0 <= b < 256) packed
        /\ forall i j : nat,
             (i < length pixels / 8)%nat -> (j < 8)%nat ->
             Z.testbit (nth i packed 0) (7 - Z.of_nat j)
             = (nth (8 * i + j) pixels 0 =? 255)).
Proof.
  assert (Hok : Nat.divide 8 (length pixels) ->
      exists packed : list Z,
        compress_to_bits pixels = Ok packed
        /\ length packed = (length pixels / 8)%nat
        /\ Forall (fun b => 0 <= b < 256) packed
        /\ forall i j : nat,
             (i < length pixels / 8)%nat -> (j < 8)%nat ->
             Z.testbit (nth i packed 0) (7 - Z.of_nat j)
             = (nth (8 * i + j) pixels 0 =? 255)).
  { intros [m Hm].
    assert (Hlen : length pixels = (8 * m)%nat) by lia.
    assert (Hdiv : (length pixels / 8)%nat = m).
    { rewrite Hm. apply Nat.div_mul. lia. }
    exists (map (chunk_byte pixels) (seq 0 m)). rewrite Hdiv.
    split; [by apply compress_to_bits_chunks|].
    split; [by rewrite length_map, length_seq|].
    split.
    - apply List.Forall_forall. intros b Hb. apply in_map_iff in Hb as (c & <- & _).
      apply chunk_byte_range.
    - intros i j Hi Hj. rewrite nth_map_seq by lia. cbn [Nat.add].
      apply chunk_byte_testbit; lia. }
  split; [|exact Hok].
  split.
  - intros Hfail Hdiv. destruct (Hok Hdiv) as (packed & Hp & _). congruence.
  - intros Hndiv. unfold compress_to_bits.
    destruct (Z.eqb_spec (Z.of_nat (length pixels) mod 8) 0) as [Hz|Hz]; [|done].
    by apply divide_8_length in Hz.
Qed.

Lemma C3_compress_to_bits_witness :
  Nat.divide 8 (length [255; 0; 0; 0; 0; 0; 0; 255])
  /\ exists packed : list Z,
       compress_to_bits [255; 0; 0; 0; 0; 0; 0; 255] = Ok packed
       /\ length packed = 1%nat.
Proof.
  assert (Hdiv : Nat.divide 8 (length [255; 0; 0; 0; 0; 0; 0; 255]))
    by (exists 1%nat; reflexivity).
  split; [exact Hdiv|].
  destruct (proj2 (C3_compress_to_bits [255; 0; 0; 0; 0; 0; 0; 255]) Hdiv)
    as (packed & Hp & Hl & _).
  exists packed. split; [exact Hp|exact Hl].
Defined.

(** ** Unpacking *)

Lemma fold_left_snoc {A B : Type} (f : A -> B) (xs : list A) :
  forall acc : list B,
    fold_left (fun acc x => acc ++ [f x]) xs acc = acc ++ map f xs.
Proof.
  induction xs as [|x xs IH]; intros acc; cbn [fold_left map].
  - by rewrite app_nil_r.
  - by rewrite IH, <- app_assoc.
Qed.

Lemma unpack_byte_app (unpacked : list Z) (byte : Z) :
  unpack_byte unpacked byte = unpacked ++ byte_pixels byte.
Proof.
  unfold unpack_byte, byte_pixels.
  apply (fold_left_snoc
    (fun bit => if Z.land byte (Z.shiftl 1 (7 - bit)) =? 0 then 0 else 255)).
Qed.

Lemma unpack_bits_from (bytes : list Z) :
  forall unpacked : list Z,
    fold_left unpack_byte bytes unpacked = unpacked ++ flat_map byte_pixels bytes.
Proof.
  induction bytes as [|b bytes IH]; intros unpacked; cbn [fold_left flat_map].
  - by rewrite app_nil_r.
  - by rewrite IH, unpack_byte_app, <- app_assoc.
Qed.

Lemma unpack_bits_flat_map (bytes : list Z) :
  unpack_bits bytes = flat_map byte_pixels bytes.
Proof. unfold unpack_bits. by rewrite unpack_bits_from. Qed.

Lemma take_drop_map_nth (l : list Z) :
  forall n k : nat,
    (k + n <= length l)%nat ->
    take n (drop k l) = map (fun j => nth (k + j) l 0) (seq 0 n).
Proof.
  induction n as [|n IH]; intros k Hlen; [done|].
  rewrite (drop_nth_cons l k) by lia.
  cbn [take seq map]. rewrite Nat.add_0_r. f_equal.
  rewrite IH by lia.
  rewrite <- seq_shift, map_map.
  apply map_ext. intros j. f_equal. lia.
Qed.

Lemma byte_pixels_chunk (pixels : list Z) (c : nat) :
  Forall binary_pixel pixels ->
  (8 * c + 8 <= length pixels)%nat ->
  byte_pixels (chunk_byte pixels c) = take 8 (drop (8 * c) pixels).
Proof.
  intros Hbin Hlen.
  rewrite take_drop_map_nth by lia.
  unfold byte_pixels, range. change (Z.to_nat 8) with 8%nat.
  rewrite map_map. apply map_ext_in. intros j Hj.
  apply in_seq in Hj.
  rewrite land_bit_test, chunk_byte_testbit by lia.
  assert (Hp : binary_pixel (nth (8 * c + j) pixels 0)).
  { apply (proj1 (Forall_nth binary_pixel 0 pixels) Hbin). lia. }
  by destruct Hp as [-> | ->].
Qed.

Lemma unpack_chunks (pixels : list Z) :
  Forall binary_pixel pixels ->
  forall n k : nat,
    (8 * (k + n) <= length pixels)%nat ->
    flat_map byte_pixels (map (chunk_byte pixels) (seq k n))
    = take (8 * n) (drop (8 * k) pixels).
Proof.
  intros Hbin. induction n as [|n IH]; intros k Hlen.
  - by rewrite Nat.mul_0_r.
  - cbn [seq map flat_map].
    rewrite byte_pixels_chunk, IH by (done || lia).
    replace (8 * S k)%nat with (8 * k + 8)%nat by lia.
    rewrite <- drop_drop, take_take_drop.
    f_equal. lia.
Qed.

Lemma rle_codec_inverse (data : list Z) :
  exists encoded : list Z,
    rle_compress data = Ok encoded /\ rle_decode_bytes encoded = Ok data.
Proof.
  destruct (rle_compress_tokens data) as (ts & Henc & Hdata & Hok).
  exists (flat_map token_bytes ts). split; [done|].
  by rewrite rle_decode_bytes_list, (decode_encoder_tokens _ Hok), <- Hdata.
Qed.

(** C2.  Full verification round trip: for every pixel sequence [p] over
    [{0x00, 0xFF}] whose length is divisible by 8, packing succeeds, the
    encoder returns a stream, and [decompress_and_verify] of that stream
    with [len(p)] returns [p] itself. *)
Theorem C2_pipeline_round_trip (p : list Z) :
  Forall binary_pixel p ->
  Nat.divide 8 (length p) ->
  exists packed encoded : list Z,
    compress_to_bits p = Ok packed
    /\ rle_compress packed = Ok encoded
    /\ decompress_and_verify encoded (Z.of_nat (length p)) = Ok p.
Proof.
  intros Hbin [m Hm].
  assert (Hlen : length p = (8 * m)%nat) by lia.
  destruct (rle_codec_inverse (map (chunk_byte p) (seq 0 m)))
    as (encoded & Henc & Hdec).
  exists (map (chunk_byte p) (seq 0 m)), encoded.
  split; [by apply compress_to_bits_chunks|]. split; [done|].
  unfold decompress_and_verify. rewrite Hdec. cbn [mbind outcome_bind].
  rewrite unpack_bits_flat_map, unpack_chunks by (done || lia).
  rewrite drop_0, take_ge by lia.
  by rewrite slice_to_length.
Qed.

Lemma C2_pipeline_round_trip_witness :
  exists packed encoded : list Z,
    compress_to_bits (replicate 8 0 ++ replicate 8 255) = Ok packed
    /\ rle_compress packed = Ok encoded
    /\ decompress_and_verify encoded 16 = Ok (replicate 8 0 ++ replicate 8 255).
Proof.
  apply (C2_pipeline_round_trip (replicate 8 0 ++ replicate 8 255)).
  - apply Forall_app. split; apply Forall_replicate; [by left|by right].
  - exists 2%nat. reflexivity.
Defined.

(** ** The binarizer *)

Lemma fold_left_rows {A B C : Type} (g : A -> B -> C) (xs : list A) (ys : list B) :
  forall acc : list C,
    fold_left
      (fun acc y => fold_left (fun acc x => acc ++ [g x y]) xs acc) ys acc
    = acc ++ flat_map (fun y => map (fun x => g x y) xs) ys.
Proof.
  induction ys as [|y ys IH]; intros acc; cbn [fold_left flat_map].
  - by rewrite app_nil_r.
  - rewrite IH, (fold_left_snoc (fun x => g x y)). by rewrite <- app_assoc.
Qed.

Lemma nth_rows {A : Type} (d : A) (row : nat -> list A) (w : nat) :
  (forall y, length (row y) = w) ->
  forall (n k y x : nat),
    (x < w)%nat -> (y < n)%nat ->
    nth (y * w + x) (flat_map row (seq k n)) d = nth x (row (k + y)%nat) d.
Proof.
  intros Hrow. induction n as [|n IH]; intros k y x Hx Hy; [lia|].
  cbn [seq flat_map]. destruct y as [|y].
  - cbn [Nat.mul Nat.add]. rewrite Nat.add_0_r.
    apply app_nth1. by rewrite Hrow.
  - rewrite app_nth2 by (rewrite Hrow; lia).
    rewrite Hrow.
    replace (S y * w + x - w)%nat with (y * w + x)%nat by lia.
    rewrite IH by lia. f_equal. f_equal. lia.
Qed.

Lemma length_rows {A : Type} (row : nat -> list A) (w : nat) :
  (forall y, length (row y) = w) ->
  forall n k : nat, length (flat_map row (seq k n)) = (n * w)%nat.
Proof.
  intros Hrow. induction n as [|n IH]; intros k; [done|].
  cbn [seq flat_map]. rewrite length_app, Hrow, IH. lia.
Qed.

Lemma binarize_image_rows (img : image) (threshold : Z) :
  binarize_image img threshold
  = flat_map
      (fun y : nat =>
         map (fun x : nat =>
                if pixel img (Z.of_nat x) (Z.of_nat y) <? threshold then 0 else 255)
             (seq 0 (Z.to_nat (width img))))
      (seq 0 (Z.to_nat (height img))).
Proof.
  unfold binarize_image, range.
  rewrite (fold_left_rows
    (fun x y => if pixel img x y <? threshold then 0 else 255)).
  cbn [app]. rewrite !flat_map_concat_map, map_map. f_equal.
  apply map_ext. intros y. by rewrite map_map.
Qed.

(** C7.  The binarizer: the output has one value per input sample (row
    major, [width * height] of them); the value for a sample greater than
    or equal to the threshold is [0xFF] and the value for a sample below the
    threshold is [0x00], so every output value is [0x00] or [0xFF]. *)
Theorem C7_binarize_image (img : image) (threshold : Z) :
  length (binarize_image img threshold)
  = (Z.to_nat (height img) * Z.to_nat (width img))%nat
  /\ Forall binary_pixel (binarize_image img threshold)
  /\ forall x y : Z,
       0 <= x < width img -> 0 <= y < height img ->
       nth (Z.to_nat (y * width img + x)) (binarize_image img threshold) 0
       = if threshold <=? pixel img x y then 255 else 0.
Proof.
  rewrite binarize_image_rows.
  set (row := fun y : nat =>
         map (fun x : nat =>
                if pixel img (Z.of_nat x) (Z.of_nat y) <? threshold then 0 else 255)
             (seq 0 (Z.to_nat (width img)))).
  assert (Hrow : forall y, length (row y) = Z.to_nat (width img)).
  { intros y. unfold row. by rewrite length_map, length_seq. }
  split; [apply (length_rows row _ Hrow)|]. split.
  - rewrite flat_map_concat_map. apply Forall_concat.
    apply List.Forall_forall. intros r Hr.
    apply in_map_iff in Hr as (y & <- & _).
    apply List.Forall_forall. intros v Hv.
    apply in_map_iff in Hv as (x & <- & _).
    destruct (pixel img (Z.of_nat x) (Z.of_nat y) <? threshold); [by left|by right].
  - intros x y Hx Hy.
    replace (Z.to_nat (y * width img + x))
      with (Z.to_nat y * Z.to_nat (width img) + Z.to_nat x)%nat by nia.
    rewrite (nth_rows 0 row _ Hrow) by lia.
    unfold row. rewrite nth_map_seq by lia. cbn [Nat.add].
    rewrite !Z2Nat.id by lia.
    destruct (Z.ltb_spec (pixel img x y) threshold);
      destruct (Z.leb_spec threshold (pixel img x y)); (done || lia).
Qed.

Lemma C7_binarize_image_witness :
  nth (Z.to_nat (1 * 2 + 1))
      (binarize_image
         {| width := 2; height := 2; pixel := fun x y => 64 * (x + 2 * y) |} 128) 0
  = 255.
Proof.
  apply (proj2 (proj2 (C7_binarize_image
    {| width := 2; height := 2; pixel := fun x y => 64 * (x + 2 * y) |} 128)) 1 1);
  cbn; lia.
Defined.

(** ** Grid detection *)

Lemma fold_left_filter {A : Type} (keep : A -> bool) (xs : list A) :
  forall acc : list A,
    fold_left (fun acc x => if keep x then acc ++ [x] else acc) xs acc
    = acc ++ List.filter keep xs.
Proof.
  induction xs as [|x xs IH]; intros acc; cbn [fold_left List.filter].
  - by rewrite app_nil_r.
  - rewrite IH. destruct (keep x); [|done]. by rewrite <- app_assoc.
Qed.

Lemma in_range (n x : Z) : In x (range n) <-> 0 <= x < n.
Proof.
  unfold range. rewrite in_map_iff. split.
  - intros (k & <- & Hk). apply in_seq in Hk. lia.
  - intros Hx. exists (Z.to_nat x). split; [lia|]. apply in_seq. lia.
Qed.

(** A vertical separator is a column of the image that is dark from top to
    bottom; a horizontal separator is a row that is dark from left to
    right. *)
Lemma v_separators_spec (img : image) (threshold x : Z) :
  In x (v_separators img threshold)
  <-> 0 <= x < width img
      /\ forall y, 0 <= y < height img -> pixel img x y < threshold.
Proof.
  unfold v_separators. rewrite fold_left_filter. cbn [app].
  rewrite filter_In, in_range, forallb_forall.
  split; intros [Hx Hdark]; (split; [done|]); intros y Hy.
  - apply Z.ltb_lt, Hdark, in_range, Hy.
  - apply Z.ltb_lt, Hdark, in_range, Hy.
Qed.

Lemma h_separators_spec (img : image) (threshold y : Z) :
  In y (h_separators img threshold)
  <-> 0 <= y < height img
      /\ forall x, 0 <= x < width img -> pixel img x y < threshold.
Proof.
  unfold h_separators. rewrite fold_left_filter. cbn [app].
  rewrite filter_In, in_range, forallb_forall.
  split; intros [Hy Hdark]; (split; [done|]); intros x Hx.
  - apply Z.ltb_lt, Hdark, in_range, Hx.
  - apply Z.ltb_lt, Hdark, in_range, Hx.
Qed.

Lemma detect_grid_none (img : image) (threshold : Z) :
  detect_grid img threshold = None
  <-> v_separators img threshold = [] \/ h_separators img threshold = [].
Proof.
  unfold detect_grid.
  destruct (v_separators img threshold) as [|v vs];
    destruct (h_separators img threshold) as [|hh hs]; cbn [length Nat.ltb Nat.leb andb];
    split; intros H; try done; auto.
  by destruct H.
Qed.

(** C6 as the spec states it fails on a one-pixel dark image: each axis has
    exactly one separator (fewer than two), no grid option is given, yet
    detection succeeds with a one-cell grid and no fallback is taken. *)
Lemma C6_counterexample :
  let img := flat_image 1 1 0 in
  let a := default_args "font.png" in
  arg_grid a = None /\ arg_char_size a = None
  /\ (length (v_separators img (arg_threshold a)) < 2)%nat
  /\ (length (h_separators img (arg_threshold a)) < 2)%nat
  /\ detect_grid img (arg_threshold a) = Some (1, 1, 1, 1)
  /\ grid_layout img a = Ok (1, 1, 1, 1)
  /\ grid_layout img a <> Ok (16, 6, width img / 16, height img / 6).
Proof.
  cbv zeta. vm_compute. repeat split; (lia || discriminate || reflexivity || idtac).
Qed.

(** C6, amended.  Grid detection fails exactly when no vertical separator or
    no horizontal separator is found; with neither [--grid] nor
    [--char-size] given, the pipeline then falls back to 16 columns,
    [ceil(95/16) = 6] rows, cell width [width // 16] and cell height
    [height // 6]. *)
Theorem C6_fallback_activation (img : image) (a : args) :
  (detect_grid img (arg_threshold a) = None
   <-> v_separators img (arg_threshold a) = []
       \/ h_separators img (arg_threshold a) = [])
  /\ (arg_grid a = None -> arg_char_size a = None ->
      v_separators img (arg_threshold a) = []
      \/ h_separators img (arg_threshold a) = [] ->
      grid_layout img a = Ok (16, 6, width img / 16, height img / 6)).
Proof.
  split; [apply detect_grid_none|].
  intros Hgrid Hsize Hnone.
  apply detect_grid_none in Hnone.
  unfold grid_layout. by rewrite Hgrid, Hsize, Hnone.
Qed.

Lemma C6_fallback_activation_witness :
  grid_layout (flat_image 32 12 255) (default_args "font.png") = Ok (16, 6, 2, 2).
Proof.
  apply (proj2 (C6_fallback_activation (flat_image 32 12 255) (default_args "font.png")));
    [reflexivity|reflexivity|left; vm_compute; reflexivity].
Defined.

(** ** Synthetic glyph injection *)

Lemma index_injective (w x y x' y' : Z) :
  0 <= x < w -> 0 <= x' < w -> 0 <= y -> 0 <= y' ->
  Z.to_nat (y' * w + x') = Z.to_nat (y * w + x) -> x' = x /\ y' = y.
Proof.
  intros Hx Hx' Hy Hy' Heq.
  assert (Hz : y' * w + x' = y * w + x) by nia.
  assert (y' = y); [|split; [subst y'; lia|done]].
  destruct (Z.lt_trichotomy y' y) as [Hlt|[->|Hgt]]; [|done|].
  - assert ((y' + 1) * w <= y * w) by nia. lia.
  - assert ((y + 1) * w <= y' * w) by nia. lia.
Qed.

Lemma setitem_in_bounds (pixels : list Z) (w h x y : Z) :
  Z.of_nat (length pixels) = w * h ->
  0 <= x < w -> 0 <= y < h ->
  setitem pixels (y * w + x) 255 = Ok (<[Z.to_nat (y * w + x) := 255]> pixels)
  /\ (Z.to_nat (y * w + x) < length pixels)%nat.
Proof.
  intros Hlen Hx Hy.
  assert (Hidx : 0 <= y * w + x < w * h) by nia.
  unfold setitem, py_index. rewrite Hlen.
  destruct (Z.leb_spec 0 (y * w + x)); [|lia].
  destruct (Z.ltb_spec (y * w + x) (w * h)); [|lia].
  split; [done|lia].
Qed.

Section SolidChar.

Variables w h x0 y0 : Z.

Lemma solid_row_loop (dy : Z) :
  forall (n s : nat) (pixels : list Z),
    Z.of_nat (length pixels) = w * h ->
    exists pixels' : list Z,
      for_each (map Z.of_nat (seq s n))
        (fun pixels dx =>
           let x := x0 + dx in
           let y := y0 + dy in
           if (0 <=? x) && (x <? w) && (0 <=? y) && (y <? h)
           then setitem pixels (y * w + x) 255
           else Ok pixels)
        pixels
      = Ok pixels'
      /\ length pixels' = length pixels
      /\ forall x y : Z,
           0 <= x < w -> 0 <= y < h ->
           pixels' !! Z.to_nat (y * w + x)
           = if decide (y = y0 + dy
                        /\ x0 + Z.of_nat s <= x < x0 + Z.of_nat s + Z.of_nat n)
             then Some 255
             else pixels !! Z.to_nat (y * w + x).
Proof.
  induction n as [|n IH]; intros s pixels Hlen.
  - exists pixels. split; [done|]. split; [done|].
    intros x y Hx Hy. case_decide; [lia|done].
  - cbn [seq map for_each]. cbv zeta.
    destruct ((0 <=? x0 + Z.of_nat s) && (x0 + Z.of_nat s <? w)
              && (0 <=? y0 + dy) && (y0 + dy <? h)) eqn:Hguard.
    + assert (Hin : 0 <= x0 + Z.of_nat s < w /\ 0 <= y0 + dy < h) by lia.
      destruct Hin as [Hxs Hys].
      destruct (setitem_in_bounds pixels w h _ _ Hlen Hxs Hys) as [-> Hidx].
      destruct (IH (S s) (<[Z.to_nat ((y0 + dy) * w + (x0 + Z.of_nat s)) := 255]> pixels))
        as (pixels' & Hloop & Hlen' & Hlook).
      { by rewrite length_insert. }
      exists pixels'. split; [done|]. split.
      { by rewrite Hlen', length_insert. }
      intros x y Hx Hy. rewrite (Hlook x y Hx Hy).
      destruct (decide (x = x0 + Z.of_nat s /\ y = y0 + dy)) as [[-> ->]|Hne].
      * rewrite list_lookup_insert_eq by done.
        repeat case_decide; (done || lia).
      * rewrite list_lookup_insert_ne.
        -- repeat case_decide; (done || lia).
        -- intros Heq. apply Hne.
           apply (index_injective w (x0 + Z.of_nat s) (y0 + dy) x y); (done || lia).
    + destruct (IH (S s) pixels Hlen) as (pixels' & Hloop & Hlen' & Hlook).
      exists pixels'. split; [done|]. split; [done|].
      intros x y Hx Hy. rewrite (Hlook x y Hx Hy).
      repeat case_decide; (done || lia).
Qed.

Lemma solid_rows_loop (char_w : Z) :
  forall (m t : nat) (pixels : list Z),
    Z.of_nat (length pixels) = w * h ->
    exists pixels' : list Z,
      for_each (map Z.of_nat (seq t m))
        (fun pixels dy =>
           for_each (range char_w)
             (fun pixels dx =>
                let x := x0 + dx in
                let y := y0 + dy in
                if (0 <=? x) && (x <? w) && (0 <=? y) && (y <? h)
                then setitem pixels (y * w + x) 255
                else Ok pixels)
             pixels)
        pixels
      = Ok pixels'
      /\ length pixels' = length pixels
      /\ forall x y : Z,
           0 <= x < w -> 0 <= y < h ->
           pixels' !! Z.to_nat (y * w + x)
           = if decide (y0 + Z.of_nat t <= y < y0 + Z.of_nat t + Z.of_nat m
                        /\ x0 <= x < x0 + char_w)
             then Some 255
             else pixels !! Z.to_nat (y * w + x).
Proof.
  induction m as [|m IH]; intros t pixels Hlen.
  - exists pixels. split; [done|]. split; [done|].
    intros x y Hx Hy. case_decide; [lia|done].
  - cbn [seq map for_each]. unfold range at 1.
    destruct (solid_row_loop (Z.of_nat t) (Z.to_nat char_w) 0 pixels Hlen)
      as (pixels1 & Hrow & Hlen1 & Hlook1).
    cbv zeta in Hrow. rewrite Hrow.
    destruct (IH (S t) pixels1) as (pixels' & Hloop & Hlen' & Hlook).
    { by rewrite Hlen1. }
    exists pixels'. split; [exact Hloop|]. split; [by rewrite Hlen'|].
    intros x y Hx Hy. rewrite (Hlook x y Hx Hy), (Hlook1 x y Hx Hy).
    repeat case_decide; (done || lia).
Qed.

End SolidChar.

Lemma pixel_coordinates (w h : Z) (k : nat) :
  0 <= w -> 0 <= h -> Z.of_nat k < w * h ->
  exists x y : Z, 0 <= x < w /\ 0 <= y < h /\ k = Z.to_nat (y * w + x).
Proof.
  intros Hw Hh Hk.
  assert (Hwpos : 0 < w) by nia.
  exists (Z.of_nat k mod w), (Z.of_nat k / w).
  pose proof (Z.mod_pos_bound (Z.of_nat k) w Hwpos) as Hmod.
  pose proof (Z.div_mod (Z.of_nat k) w ltac:(lia)) as Hdm.
  assert (0 <= Z.of_nat k / w) by (apply Z.div_pos; lia).
  assert (Z.of_nat k / w < h) by (apply Z.div_lt_upper_bound; nia).
  split; [done|]. split; [lia|]. lia.
Qed.

(** C9.  [generate_solid_char] on a [w] by [h] buffer with a non-zero column
    count: the call returns, every pixel of the image whose coordinates lie
    in the box of cell 95 (origin [(95 mod cols) * char_w],
    [(95 div cols) * char_h], size [char_w] by [char_h]) is [0xFF]
    afterwards, every other pixel keeps its value, and when no pixel of the
    image lies in the box the buffer is unchanged. *)
Theorem C9_generate_solid_char (pixels : list Z) (w h cols rows char_w char_h : Z) :
  0 <= w -> 0 <= h ->
  Z.of_nat (length pixels) = w * h ->
  cols <> 0 ->
  let x0 := (95 mod cols) * char_w in
  let y0 := (95 / cols) * char_h in
  let in_cell := fun x y : Z => x0 <= x < x0 + char_w /\ y0 <= y < y0 + char_h in
  exists pixels' : list Z,
    generate_solid_char pixels w h cols rows char_w char_h = Ok pixels'
    /\ length pixels' = length pixels
    /\ (forall x y : Z,
          0 <= x < w -> 0 <= y < h -> in_cell x y ->
          nth (Z.to_nat (y * w + x)) pixels' 0 = 255)
    /\ (forall x y : Z,
          0 <= x < w -> 0 <= y < h -> ~ in_cell x y ->
          nth (Z.to_nat (y * w + x)) pixels' 0 = nth (Z.to_nat (y * w + x)) pixels 0)
    /\ ((forall x y : Z, 0 <= x < w -> 0 <= y < h -> ~ in_cell x y) ->
        pixels' = pixels).
Proof.
  intros Hw Hh Hlen Hcols x0 y0 in_cell.
  unfold generate_solid_char, pymod, floordiv.
  destruct (Z.eqb_spec cols 0) as [|_]; [done|].
  cbn [mbind outcome_bind]. fold x0 y0. unfold range at 1.
  destruct (solid_rows_loop w h x0 y0 char_w (Z.to_nat char_h) 0 pixels Hlen)
    as (pixels' & Hloop & Hlen' & Hlook).
  exists pixels'. split; [exact Hloop|]. split; [done|].
  assert (Hin : forall x y : Z,
            0 <= x < w -> 0 <= y < h -> in_cell x y ->
            pixels' !! Z.to_nat (y * w + x) = Some 255).
  { intros x y Hx Hy [Hcx Hcy]. rewrite (Hlook x y Hx Hy).
    case_decide; [done|lia]. }
  assert (Hout : forall x y : Z,
            0 <= x < w -> 0 <= y < h -> ~ in_cell x y ->
            pixels' !! Z.to_nat (y * w + x) = pixels !! Z.to_nat (y * w + x)).
  { intros x y Hx Hy Hnot. rewrite (Hlook x y Hx Hy).
    case_decide; [|done]. exfalso. apply Hnot. unfold in_cell. lia. }
  split; [|split].
  - intros x y Hx Hy Hc. by rewrite nth_lookup, (Hin x y Hx Hy Hc).
  - intros x y Hx Hy Hc. by rewrite !nth_lookup, (Hout x y Hx Hy Hc).
  - intros Hnone. apply list_eq. intros k.
    destruct (decide (k < length pixels)%nat) as [Hk|Hk].
    + destruct (pixel_coordinates w h k Hw Hh ltac:(lia)) as (x & y & Hx & Hy & ->).
      apply Hout; [done|done|]. by apply Hnone.
    + rewrite !lookup_ge_None_2 by lia. done.
Qed.

Lemma C9_generate_solid_char_witness :
  exists pixels' : list Z,
    generate_solid_char (replicate 96 0) 16 6 16 6 1 1 = Ok pixels'
    /\ nth (Z.to_nat (5 * 16 + 15)) pixels' 0 = 255.
Proof.
  destruct (C9_generate_solid_char (replicate 96 0) 16 6 16 6 1 1)
    as (pixels' & Hrun & _ & Hin & _); [lia|lia|reflexivity|lia|].
  exists pixels'. split; [exact Hrun|].
  apply Hin; [lia|lia|]. change (15 <= 15 < 16 /\ 5 <= 5 < 6). lia.
Defined.

(** ** The decoder on arbitrary streams *)

Lemma stream_tokens_bounded (n : nat) :
  forall compressed : list Z,
    (length compressed <= n)%nat ->
    exists (ts : list token) (tail : list Z),
      compressed = flat_map token_bytes ts ++ tail
      /\ Forall literal_nonzero ts
      /\ (tail = [] \/ tail = [0]).
Proof.
  induction n as [|n IH]; intros compressed Hlen.
  - destruct compressed; [|cbn in Hlen; lia].
    exists [], []. by auto.
  - destruct compressed as [|b tl].
    { exists [], []. by auto. }
    destruct (Z.eq_dec b 0) as [->|Hb].
    + destruct tl as [|count tl'].
      { exists [], [0]. by auto. }
      destruct (IH tl') as (ts & tail & -> & Hts & Htail); [cbn in Hlen; lia|].
      exists (Run count :: ts), tail. split; [done|]. split; [by constructor|done].
    + destruct (IH tl) as (ts & tail & -> & Hts & Htail); [cbn in Hlen; lia|].
      exists (Lit b :: ts), tail. split; [done|]. split; [by constructor|done].
Qed.

Lemma stream_tokens (compressed : list Z) :
  exists (ts : list token) (tail : list Z),
    compressed = flat_map token_bytes ts ++ tail
    /\ Forall literal_nonzero ts
    /\ (tail = [] \/ tail = [0]).
Proof. by apply (stream_tokens_bounded (length compressed)). Qed.

Lemma byte_pixels_binary (byte : Z) : Forall binary_pixel (byte_pixels byte).
Proof.
  unfold byte_pixels. apply List.Forall_forall. intros v Hv.
  apply in_map_iff in Hv as (bit & <- & _).
  destruct (Z.land byte (Z.shiftl 1 (7 - bit)) =? 0); [by left|by right].
Qed.

Lemma unpack_bits_binary (bytes : list Z) : Forall binary_pixel (unpack_bits bytes).
Proof.
  rewrite unpack_bits_flat_map.
  induction bytes as [|b bytes IH]; cbn [flat_map]; [done|].
  apply Forall_app. split; [apply byte_pixels_binary|done].
Qed.

(** C10.  [decompress_and_verify] on an arbitrary stream: both loops run
    to completion without an exception, every element of the returned list
    is [0x00] or [0xFF], and for a non-negative [original_size] the list
    has at most [original_size] elements.  Every stream reads as a sequence
    of tokens followed by nothing or by one dangling [0x00], and decodes to
    the expansions of the tokens followed by that tail: a [0x00] with count
    byte 0 adds no decoded byte, a [0x00] ending the stream adds a single
    [0x00]. *)
Theorem C10_decoder_total (compressed : list Z) (original_size : Z) :
  (exists result unpacked : list Z,
      rle_decode_bytes compressed = Ok result
      /\ decompress_and_verify compressed original_size = Ok unpacked
      /\ Forall binary_pixel unpacked
      /\ (0 <= original_size ->
          (length unpacked <= Z.to_nat original_size)%nat))
  /\ (exists (ts : list token) (tail : list Z),
        compressed = flat_map token_bytes ts ++ tail
        /\ Forall literal_nonzero ts
        /\ (tail = [] \/ tail = [0])
        /\ rle_decode_bytes compressed = Ok (flat_map token_expand ts ++ tail))
  /\ (forall (ts : list token) (rest : list Z),
        Forall literal_nonzero ts ->
        rle_decode_bytes (flat_map token_bytes ts ++ [0; 0] ++ rest)
        = rle_decode_bytes (flat_map token_bytes ts ++ rest))
  /\ (forall ts : list token,
        Forall literal_nonzero ts ->
        rle_decode_bytes (flat_map token_bytes ts ++ [0])
        = Ok (flat_map token_expand ts ++ [0])).
Proof.
  split; [|split; [|split]].
  - exists (decode_list compressed),
      (slice_to (unpack_bits (decode_list compressed)) original_size).
    split; [apply rle_decode_bytes_list|].
    unfold decompress_and_verify. rewrite rle_decode_bytes_list.
    split; [done|].
    unfold slice_to. split.
    + destruct (0 <=? original_size); apply Forall_take, unpack_bits_binary.
    + intros Hsize. destruct (Z.leb_spec 0 original_size); [|lia].
      rewrite length_take. lia.
  - destruct (stream_tokens compressed) as (ts & tail & -> & Hts & Htail).
    exists ts, tail. split; [done|]. split; [done|]. split; [done|].
    rewrite rle_decode_bytes_list, decode_list_tokens by done.
    by destruct Htail as [-> | ->].
  - intros ts rest Hts.
    rewrite !rle_decode_bytes_list, !decode_list_tokens by done.
    done.
  - intros ts Hts.
    by rewrite rle_decode_bytes_list, decode_list_tokens.
Qed.

Lemma C10_decoder_total_witness :
  Forall literal_nonzero [Lit 129; Run 3]
  /\ rle_decode_bytes (flat_map token_bytes [Lit 129; Run 3] ++ [0; 0] ++ [7; 0])
     = rle_decode_bytes (flat_map token_bytes [Lit 129; Run 3] ++ [7; 0])
  /\ rle_decode_bytes (flat_map token_bytes [Lit 129; Run 3] ++ [0])
     = Ok (flat_map token_expand [Lit 129; Run 3] ++ [0])
  /\ exists unpacked : list Z,
       decompress_and_verify [0; 0; 129; 0] 12 = Ok unpacked
       /\ (length unpacked <= Z.to_nat 12)%nat.
Proof.
  assert (Hts : Forall literal_nonzero [Lit 129; Run 3])
    by (repeat constructor; cbn; lia).
  split; [exact Hts|].
  split; [exact (proj1 (proj2 (proj2 (C10_decoder_total [] 0))) _ [7; 0] Hts)|].
  split; [exact (proj2 (proj2 (proj2 (C10_decoder_total [] 0))) _ Hts)|].
  destruct (proj1 (C10_decoder_total [0; 0; 129; 0] 12))
    as (result & unpacked & _ & Hrun & _ & Hlen).
  exists unpacked. split; [exact Hrun|]. apply Hlen. lia.
Defined.

(** ** Which exceptions the pipeline can raise *)

Lemma no_exit_ok {A : Type} (a : A) : no_exit (Ok a).
Proof. by intros code. Qed.

Lemma no_exit_bind {A B : Type} (m : outcome A) (f : A -> outcome B) :
  no_exit m -> (forall a, no_exit (f a)) -> no_exit (m ≫= f).
Proof.
  intros Hm Hf code. destruct m as [a|e]; cbn.
  - exact (Hf a code).
  - intros Heq. apply (Hm code). by inversion Heq.
Qed.

Lemma no_exit_for_each {A S : Type} (body : S -> A -> outcome S) (xs : list A) :
  (forall s x, no_exit (body s x)) ->
  forall s : S, no_exit (for_each xs body s).
Proof.
  intros Hbody. induction xs as [|x xs IH]; intros s; cbn [for_each].
  - apply no_exit_ok.
  - pose proof (Hbody s x) as Hx.
    destruct (body s x) as [s'|e]; [apply IH|exact Hx].
Qed.

Lemma no_exit_getitem (l : list Z) (k : Z) : no_exit (getitem l k).
Proof.
  intros code. unfold getitem.
  destruct (py_index (length l) k); [|done]. by destruct (l !! n).
Qed.

Lemma no_exit_setitem (l : list Z) (k v : Z) : no_exit (setitem l k v).
Proof. intros code. unfold setitem. by destruct (py_index (length l) k). Qed.

Lemma no_exit_bytearray_setitem (l : list Z) (k v : Z) :
  no_exit (bytearray_setitem l k v).
Proof.
  intros code. unfold bytearray_setitem.
  destruct (py_index (length l) k); [|done].
  by destruct ((0 <=? v) && (v <? 256)).
Qed.

Lemma no_exit_floordiv (a b : Z) : no_exit (floordiv a b).
Proof. intros code. unfold floordiv. by destruct (b =? 0). Qed.

Lemma no_exit_pymod (a b : Z) : no_exit (pymod a b).
Proof. intros code. unfold pymod. by destruct (b =? 0). Qed.

Lemma no_exit_compress_to_bits (pixels : list Z) : no_exit (compress_to_bits pixels).
Proof.
  unfold compress_to_bits.
  destruct (Z.of_nat (length pixels) mod 8 =? 0); [|done].
  apply no_exit_for_each. intros compressed i.
  apply no_exit_bind; [|intros byte; apply no_exit_bytearray_setitem].
  apply no_exit_for_each. intros byte j.
  apply no_exit_bind; [apply no_exit_getitem|intros; apply no_exit_ok].
Qed.

Lemma no_exit_generate_solid_char (pixels : list Z) (w h cols rows char_w char_h : Z) :
  no_exit (generate_solid_char pixels w h cols rows char_w char_h).
Proof.
  unfold generate_solid_char.
  apply no_exit_bind; [apply no_exit_pymod|intros m].
  apply no_exit_bind; [apply no_exit_floordiv|intros q].
  apply no_exit_for_each. intros px dy.
  apply no_exit_for_each. intros px' dx. cbv zeta.
  destruct ((0 <=? m * char_w + dx) && (m * char_w + dx <? w)
            && (0 <=? q * char_h + dy) && (q * char_h + dy <? h));
    [apply no_exit_setitem|apply no_exit_ok].
Qed.

Lemma no_exit_grid_layout (img : image) (a : args) : no_exit (grid_layout img a).
Proof.
  unfold grid_layout.
  destruct (arg_grid a) as [[cols rows]|], (arg_char_size a) as [[char_w char_h]|].
  - apply no_exit_ok.
  - apply no_exit_bind; [apply no_exit_floordiv|intros ?].
    apply no_exit_bind; [apply no_exit_floordiv|intros ?]. apply no_exit_ok.
  - apply no_exit_bind; [apply no_exit_floordiv|intros ?].
    apply no_exit_bind; [apply no_exit_floordiv|intros ?]. apply no_exit_ok.
  - destruct (detect_grid img (arg_threshold a)); [apply no_exit_ok|].
    apply no_exit_bind; [apply no_exit_floordiv|intros ?].
    apply no_exit_bind; [apply no_exit_floordiv|intros ?].
    apply no_exit_bind; [apply no_exit_floordiv|intros ?]. apply no_exit_ok.
Qed.

Lemma no_exit_rle_compress (data : list Z) : no_exit (rle_compress data).
Proof.
  destruct (rle_compress_tokens data) as (ts & -> & _). apply no_exit_ok.
Qed.

Lemma no_exit_decompress_and_verify (compressed : list Z) (original_size : Z) :
  no_exit (decompress_and_verify compressed original_size).
Proof.
  unfold decompress_and_verify. rewrite rle_decode_bytes_list. apply no_exit_ok.
Qed.

Lemma fatal_ret {A : Type} (a : A) : fatal_nonzero (io_ret a).
Proof. intros tr tr' e H. by inversion H. Qed.

Lemma fatal_emit (ev : event) : fatal_nonzero (emit ev).
Proof. intros tr tr' e H. by inversion H. Qed.

Lemma fatal_lift {A : Type} (r : outcome A) : no_exit r -> fatal_nonzero (io_lift r).
Proof.
  intros Hr tr tr' e H. inversion H; subst.
  destruct e; cbn; try lia.
  intros ->. by apply (Hr 0).
Qed.

Lemma fatal_exit_1 {A : Type} : fatal_nonzero (@io_lift A (Raise (SystemExit 1))).
Proof. intros tr tr' e H. inversion H; subst. cbn. lia. Qed.

Lemma fatal_bind {A B : Type} (m : io A) (f : A -> io B) :
  fatal_nonzero m -> (forall a, fatal_nonzero (f a)) -> fatal_nonzero (m ≫= f).
Proof.
  intros Hm Hf tr tr' e. unfold mbind, io_mbind.
  destruct (m tr) as [tr1 [a|e1]] eqn:Hrun.
  - apply Hf.
  - intros H. inversion H; subst. by apply (Hm tr tr' e).
Qed.

Section PipelineFacts.

Variable open_image : string -> option image.
Variable stem : string -> string.

Lemma no_exit_load_image (path : string) : no_exit (load_image open_image path).
Proof. intros code. unfold load_image. by destruct (open_image path). Qed.

Lemma fatal_print_stats (original_size compressed_size : nat)
    (w h cols rows char_w char_h : Z) :
  fatal_nonzero
    (print_stats original_size compressed_size w h cols rows char_w char_h).
Proof.
  unfold print_stats. apply fatal_bind; [apply fatal_emit|intros _].
  destruct (compressed_size =? 0)%nat; [by apply fatal_lift|apply fatal_ret].
Qed.

(** Whatever [process_image] raises ends the process with a non-zero
    status. *)
Lemma fatal_process_image (image_path : string) (a : args)
    (output_path : option string) :
  fatal_nonzero (process_image open_image image_path a output_path).
Proof.
  unfold process_image.
  apply fatal_bind; [apply fatal_lift, no_exit_load_image|intros img].
  apply fatal_bind; [apply fatal_lift, no_exit_grid_layout|].
  intros [[[cols rows] char_w] char_h].
  apply fatal_bind; [apply fatal_lift, no_exit_pymod|intros rw].
  apply fatal_bind.
  { destruct (negb (rw =? 0)); [apply fatal_ret|].
    apply fatal_bind; [apply fatal_lift, no_exit_pymod|intros; apply fatal_ret]. }
  intros uneven.
  apply fatal_bind; [destruct uneven; [apply fatal_emit|apply fatal_ret]|intros _].
  apply fatal_bind.
  { destruct (arg_solid a); [|apply fatal_ret].
    apply fatal_lift, no_exit_generate_solid_char. }
  intros pixels.
  apply fatal_bind.
  { destruct (arg_raw a); [apply fatal_ret|].
    apply fatal_bind; [apply fatal_lift, no_exit_compress_to_bits|intros bit_packed].
    apply fatal_lift, no_exit_rle_compress. }
  intros compressed.
  apply fatal_bind.
  { destruct (arg_stats a); [apply fatal_print_stats|apply fatal_ret]. }
  intros _.
  apply fatal_bind.
  { destruct (arg_list_fonts a); [|apply fatal_ret].
    apply fatal_bind; [apply fatal_emit|intros _].
    destruct (Z.min (32 + cols * rows - 1) 126 <? 0); [by apply fatal_lift|apply fatal_ret]. }
  intros _.
  apply fatal_bind.
  { destruct (nonempty (arg_preview a)); [apply fatal_emit|apply fatal_ret]. }
  intros _.
  apply fatal_bind.
  { destruct (arg_verify a && negb (arg_raw a)); [|apply fatal_ret].
    apply fatal_bind; [apply fatal_lift, no_exit_decompress_and_verify|].
    intros decompressed.
    destruct (bool_decide (decompressed = pixels)); [apply fatal_emit|].
    apply fatal_bind; [apply fatal_emit|intros _; apply fatal_exit_1]. }
  intros _.
  destruct (nonempty output_path); apply fatal_emit.
Qed.

Lemma batch_loop_app (a : args) (pre rest : list string) :
  forall tr tr1 : list event,
    batch_loop open_image stem pre a tr = (tr1, Ok tt) ->
    batch_loop open_image stem (pre ++ rest) a tr
    = batch_loop open_image stem rest a tr1.
Proof.
  induction pre as [|p pre IH]; intros tr tr1 Hpre.
  - cbn in Hpre. by inversion Hpre.
  - cbn [app batch_loop] in Hpre |- *.
    unfold mbind, io_mbind, emit in Hpre |- *.
    destruct (process_image open_image p a
                (Some (batch_output_path stem a p)) (tr ++ [Banner p]))
      as [tr2 [[]|e]] eqn:Hp.
    + by apply IH.
    + by inversion Hpre.
Qed.

Lemma batch_loop_raise (a : args) (p : string) (rest : list string)
    (tr tr' : list event) (e : exn) :
  process_image open_image p a (Some (batch_output_path stem a p))
    (tr ++ [Banner p]) = (tr', Raise e) ->
  batch_loop open_image stem (p :: rest) a tr = (tr', Raise e).
Proof.
  intros Hp. cbn [batch_loop]. unfold mbind, io_mbind, emit. by rewrite Hp.
Qed.

End PipelineFacts.

(** ** Claims on the orchestrator *)

(** C8 as the spec states it fails on a batch of two files.  The first
    image has a single pixel, so packing raises the invalid-length
    assertion; the exception leaves the batch loop, the second image is
    never processed and the process ends with status 1.  On its own the
    second image is processed and its output saved. *)
Lemma C8_counterexample :
  run two_files drop_extension (batch_args ["a.png"; "b.png"]%string)
  = ([Banner "a.png"], 1)
  /\ run two_files drop_extension (batch_args ["b.png"%string])
     = ([Banner "b.png"; Saved "b.rs" Rust [255]], 0).
Proof. split; vm_compute; reflexivity. Qed.

(** C8, amended.  A fatal per-image error ends the run in both modes.  In
    batch mode the images are processed in order; when one of them raises,
    the exception leaves the loop, the run ends there with the trace
    reached so far and a non-zero exit status, whatever images follow in
    the batch.  In single-image mode a raising image likewise ends the
    process with a non-zero status. *)
Theorem C8_fatal_error_ends_run (open_image : string -> option image)
    (stem : string -> string) (a : args) :
  (forall (pre rest : list string) (p : string) (tr1 tr' : list event) (e : exn),
      arg_batch a = pre ++ p :: rest ->
      batch_loop open_image stem pre a [] = (tr1, Ok tt) ->
      process_image open_image p a (Some (batch_output_path stem a p))
        (tr1 ++ [Banner p]) = (tr', Raise e) ->
      run open_image stem a = (tr', exit_status (Raise e))
      /\ exit_status (Raise e) <> 0)
  /\ (forall (tr' : list event) (e : exn),
        arg_batch a = [] ->
        nonempty (Some (arg_image a)) <> None ->
        process_image open_image (arg_image a) a (arg_output a) [] = (tr', Raise e) ->
        run open_image stem a = (tr', exit_status (Raise e))
        /\ exit_status (Raise e) <> 0).
Proof.
  split.
  - intros pre rest p tr1 tr' e Hbatch Hpre Hp.
    split; [|by apply (fatal_process_image open_image _ _ _ _ _ _ Hp)].
    unfold run, main. rewrite Hbatch.
    assert (Hloop : batch_loop open_image stem (pre ++ p :: rest) a []
                    = (tr', Raise e)).
    { rewrite (batch_loop_app open_image stem a pre (p :: rest) [] tr1 Hpre).
      by apply batch_loop_raise. }
    destruct (pre ++ p :: rest) as [|q qs] eqn:Hl.
    + by destruct pre.
    + by rewrite Hloop.
  - intros tr' e Hbatch Himage Hp.
    split; [|by apply (fatal_process_image open_image _ _ _ _ _ _ Hp)].
    unfold run, main. rewrite Hbatch.
    destruct (nonempty (Some (arg_image a))); [|done].
    by rewrite Hp.
Qed.

Lemma C8_fatal_error_ends_run_witness :
  run two_files drop_extension (batch_args ["b.png"; "a.png"; "b.png"]%string)
  = ([Banner "b.png"; Saved "b.rs" Rust [255]; Banner "a.png"],
     exit_status (Raise AssertionError))
  /\ exit_status (Raise AssertionError) <> 0.
Proof.
  apply (proj1 (C8_fatal_error_ends_run two_files drop_extension
                  (batch_args ["b.png"; "a.png"; "b.png"]%string))
           ["b.png"%string] ["b.png"%string] "a.png"%string
           [Banner "b.png"; Saved "b.rs" Rust [255]]);
    vm_compute; reflexivity.
Defined.

(** * Further properties of the codec *)

(** ** The encoder, token by token *)

Lemma rle_loop_tokenize (fuel : nat) (data : list Z) :
  forall (i n : nat) (result : list Z),
    (length data - i < fuel)%nat ->
    (length data - i <= n)%nat ->
    rle_loop fuel data i result
    = Ok (result ++ flat_map token_bytes (tokenize n (drop i data))).
Proof.
  induction fuel as [|fuel IH]; intros i n result Hfuel Hn; [lia|].
  cbn [rle_loop].
  destruct (Nat.ltb_spec i (length data)) as [Hi|Hi].
  - destruct n as [|n]; [lia|].
    rewrite (drop_nth_cons _ _ Hi), (getitem_nth _ _ Hi).
    cbn [mbind outcome_bind tokenize].
    destruct (Z.eqb_spec (nth i data 0) 0) as [Hz|Hz].
    + rewrite zero_run_spec by lia. cbn [mbind outcome_bind].
      replace (S i) with (i + 1)%nat by lia.
      set (k := run_length (drop (i + 1) data) 1).
      rewrite (IH (i + 1 + k)%nat n) by lia.
      rewrite drop_drop, Hz. cbn [flat_map token_bytes].
      by rewrite <- !app_assoc.
    + rewrite (IH (i + 1)%nat n) by lia.
      replace (S i) with (i + 1)%nat by lia.
      cbn [flat_map token_bytes]. by rewrite <- !app_assoc.
  - rewrite drop_ge by lia. destruct n; cbn; by rewrite app_nil_r.
Qed.

Lemma rle_compress_tokenize (data : list Z) :
  rle_compress data = Ok (flat_map token_bytes (tokenize (length data) data)).
Proof.
  unfold rle_compress.
  by rewrite (rle_loop_tokenize _ data 0 (length data) []) by lia.
Qed.

Lemma tokenize_budget (n : nat) :
  forall (m : nat) (l : list Z),
    (length l <= n)%nat -> (length l <= m)%nat -> tokenize n l = tokenize m l.
Proof.
  induction n as [|n IH]; intros m l Hn Hm.
  - destruct l; [|cbn in Hn; lia]. by destruct m.
  - destruct m as [|m].
    { destruct l; [done|cbn in Hm; lia]. }
    destruct l as [|d tl]; [done|]. cbn [tokenize]. cbn [length] in Hn, Hm.
    destruct (d =? 0).
    + f_equal. apply IH; rewrite length_drop; lia.
    + f_equal. apply IH; lia.
Qed.

Lemma tokenize_expand (n : nat) :
  forall l : list Z,
    (length l <= n)%nat -> flat_map token_expand (tokenize n l) = l.
Proof.
  induction n as [|n IH]; intros l Hn.
  - destruct l; [done|cbn in Hn; lia].
  - destruct l as [|d tl]; [done|]. cbn [tokenize]. cbn [length] in Hn.
    destruct (Z.eqb_spec d 0) as [->|Hd].
    + cbn [flat_map token_expand].
      replace (Z.to_nat (1 + Z.of_nat (run_length tl 1)))
        with (S (run_length tl 1)) by lia.
      cbn [replicate]. rewrite <- app_comm_cons. f_equal.
      rewrite IH by (rewrite length_drop; lia).
      rewrite <- run_length_zeros. apply take_drop.
    + cbn [flat_map token_expand]. cbn. f_equal. apply IH. lia.
Qed.

Lemma tokenize_encoder_tokens (n : nat) :
  forall l : list Z, Forall encoder_token (tokenize n l).
Proof.
  induction n as [|n IH]; intros l; [done|].
  destruct l as [|d tl]; [done|]. cbn [tokenize].
  destruct (Z.eqb_spec d 0) as [->|Hd].
  - constructor; [|apply IH]. cbn.
    pose proof (run_length_bound tl 1). lia.
  - constructor; [done|apply IH].
Qed.

Lemma run_length_le (l : list Z) :
  forall count : Z, (run_length l count <= length l)%nat.
Proof.
  induction l as [|d tl IH]; intros count; cbn [run_length length]; [lia|].
  destruct ((d =? 0) && (count <? 255)); [|lia].
  specialize (IH (count + 1)). lia.
Qed.

Lemma run_length_stops (l : list Z) :
  forall (count : Z) (rest : list Z),
    drop (run_length l count) l = 0 :: rest ->
    255 <= count + Z.of_nat (run_length l count).
Proof.
  induction l as [|d tl IH]; intros count rest Hdrop; [done|].
  cbn [run_length] in Hdrop |- *.
  destruct (Z.eqb_spec d 0) as [->|Hd]; cbn [andb] in Hdrop |- *.
  - destruct (Z.ltb_spec count 255) as [Hc|Hc]; [|lia].
    cbn [drop] in Hdrop. specialize (IH (count + 1) rest Hdrop). lia.
  - cbn in Hdrop. by inversion Hdrop.
Qed.

Lemma tokenize_head_run (n : nat) (l : list Z) (count : Z) (ts : list token) :
  tokenize n l = Run count :: ts -> exists rest, l = 0 :: rest.
Proof.
  destruct n as [|n]; [done|]. destruct l as [|d tl]; [done|].
  cbn [tokenize]. destruct (Z.eqb_spec d 0) as [->|Hd]; [|done].
  intros _. by exists tl.
Qed.

Lemma tokenize_runs_maximal (n : nat) :
  forall l : list Z, runs_maximal (tokenize n l).
Proof.
  induction n as [|n IH]; intros l; [done|].
  destruct l as [|d tl]; [done|]. cbn [tokenize].
  destruct (Z.eqb_spec d 0) as [->|Hd].
  - pose proof (IH (drop (run_length tl 1) tl)) as Hrest.
    destruct (tokenize n (drop (run_length tl 1) tl)) as [|[b|count'] ts] eqn:Htok;
      cbn [runs_maximal]; [done|done|].
    split; [|exact Hrest].
    destruct (tokenize_head_run _ _ _ _ Htok) as [rest Hdrop].
    pose proof (run_length_stops tl 1 rest Hdrop).
    pose proof (run_length_bound tl 1). lia.
  - pose proof (IH tl) as Hrest.
    by destruct (tokenize n tl) as [|[b|count'] ts].
Qed.

Lemma token_bytes_length (ts : list token) :
  Forall encoder_token ts ->
  (length (flat_map token_bytes ts) <= 2 * length (flat_map token_expand ts))%nat.
Proof.
  induction 1 as [|t ts Ht _ IH]; [done|].
  cbn [flat_map]. rewrite !length_app.
  destruct t as [b|count]; cbn [token_bytes token_expand length].
  - lia.
  - cbn in Ht. rewrite length_replicate. lia.
Qed.

Lemma token_bytes_are_bytes (ts : list token) :
  Forall encoder_token ts ->
  Forall is_byte (flat_map token_expand ts) ->
  Forall is_byte (flat_map token_bytes ts).
Proof.
  induction 1 as [|t ts Ht _ IH]; [done|].
  cbn [flat_map]. intros Hbytes. apply Forall_app in Hbytes as [Hhead Htail].
  apply Forall_app. split; [|by apply IH].
  destruct t as [b|count]; [exact Hhead|].
  cbn in Ht. repeat constructor; unfold is_byte; lia.
Qed.

(** X1.  The encoder never more than doubles its input: the stream has at
    most two bytes per input byte. *)
Theorem X1_rle_expansion_bound (data : list Z) :
  exists encoded : list Z,
    rle_compress data = Ok encoded
    /\ (length encoded <= 2 * length data)%nat.
Proof.
  destruct (rle_compress_tokens data) as (ts & Henc & Hdata & Hok).
  exists (flat_map token_bytes ts). split; [done|].
  subst data. by apply token_bytes_length.
Qed.

(** X2.  The encoding of a sequence of bytes is a sequence of bytes: count
    bytes never leave [0, 255]. *)
Theorem X2_rle_output_bytes (data : list Z) :
  Forall is_byte data ->
  exists encoded : list Z,
    rle_compress data = Ok encoded /\ Forall is_byte encoded.
Proof.
  intros Hbytes.
  destruct (rle_compress_tokens data) as (ts & Henc & Hdata & Hok).
  exists (flat_map token_bytes ts). split; [done|].
  subst data. by apply token_bytes_are_bytes.
Qed.

Lemma X2_rle_output_bytes_witness :
  exists encoded : list Z,
    rle_compress (replicate 300 0 ++ [200]) = Ok encoded /\ Forall is_byte encoded.
Proof.
  apply (X2_rle_output_bytes (replicate 300 0 ++ [200])).
  apply Forall_app. split.
  - apply Forall_replicate. unfold is_byte. lia.
  - repeat constructor; unfold is_byte; lia.
Defined.

(** X3.  Zero runs are encoded greedily: in the token sequence the encoder
    writes, a run token is followed by another run token only when its
    count is 255, so a run of zeros is split only at 255-byte boundaries. *)
Theorem X3_rle_runs_maximal (data : list Z) :
  exists ts : list token,
    rle_compress data = Ok (flat_map token_bytes ts)
    /\ data = flat_map token_expand ts
    /\ Forall encoder_token ts
    /\ runs_maximal ts.
Proof.
  exists (tokenize (length data) data).
  split; [apply rle_compress_tokenize|].
  split; [by rewrite tokenize_expand|].
  split; [apply tokenize_encoder_tokens|apply tokenize_runs_maximal].
Qed.

Lemma run_length_app (l rest : list Z) :
  (forall y, head rest = Some y -> y <> 0) ->
  forall count : Z, run_length (l ++ rest) count = run_length l count.
Proof.
  intros Hrest. induction l as [|d tl IH]; intros count.
  - cbn. destruct rest as [|y rest']; [done|]. cbn [run_length].
    destruct (Z.eqb_spec y 0) as [->|Hy]; [|done].
    by specialize (Hrest 0 eq_refl).
  - cbn [app run_length]. by rewrite IH.
Qed.

Lemma tokenize_app (rest : list Z) :
  (forall y, head rest = Some y -> y <> 0) ->
  forall (n : nat) (l : list Z),
    (length l <= n)%nat ->
    tokenize (n + length rest) (l ++ rest)
    = tokenize n l ++ tokenize (length rest) rest.
Proof.
  intros Hrest. induction n as [|n IH]; intros l Hn.
  - destruct l; [done|cbn in Hn; lia].
  - destruct l as [|d tl].
    + cbn [app]. apply tokenize_budget; lia.
    + cbn [length] in Hn. cbn [app Nat.add tokenize].
      destruct (d =? 0).
      * rewrite (run_length_app tl rest Hrest).
        rewrite drop_app_le by apply run_length_le.
        rewrite IH by (rewrite length_drop; lia). done.
      * by rewrite IH by lia.
Qed.

(** X4.  Encoding distributes over concatenation when the second part does
    not start with a zero byte (so no zero run crosses the boundary): the
    encoding of [a ++ b] is the encoding of [a] followed by that of [b]. *)
Theorem X4_rle_compress_app (a b : list Z) :
  (forall y, head b = Some y -> y <> 0) ->
  exists ea eb : list Z,
    rle_compress a = Ok ea
    /\ rle_compress b = Ok eb
    /\ rle_compress (a ++ b) = Ok (ea ++ eb).
Proof.
  intros Hb.
  exists (flat_map token_bytes (tokenize (length a) a)),
         (flat_map token_bytes (tokenize (length b) b)).
  split; [apply rle_compress_tokenize|].
  split; [apply rle_compress_tokenize|].
  rewrite rle_compress_tokenize, length_app.
  by rewrite (tokenize_app b Hb (length a) a), flat_map_app.
Qed.

Lemma X4_rle_compress_app_witness :
  exists ea eb : list Z,
    rle_compress [3; 0; 0] = Ok ea
    /\ rle_compress [9; 0] = Ok eb
    /\ rle_compress ([3; 0; 0] ++ [9; 0]) = Ok (ea ++ eb).
Proof.
  apply (X4_rle_compress_app [3; 0; 0] [9; 0]).
  intros y Hy. cbn in Hy. injection Hy as <-. lia.
Defined.

(** X5.  Encoded streams can be concatenated: decoding the encoding of [a]
    followed by the encoding of [b] gives [a ++ b], also when a zero run
    crosses the boundary. *)
Theorem X5_rle_decode_concatenated (a b : list Z) :
  exists ea eb : list Z,
    rle_compress a = Ok ea
    /\ rle_compress b = Ok eb
    /\ rle_decode_bytes (ea ++ eb) = Ok (a ++ b).
Proof.
  destruct (rle_compress_tokens a) as (tsa & Ha & Hda & Hoka).
  destruct (rle_compress_tokens b) as (tsb & Hb & Hdb & Hokb).
  exists (flat_map token_bytes tsa), (flat_map token_bytes tsb).
  split; [done|]. split; [done|].
  rewrite rle_decode_bytes_list, decode_list_tokens.
  - by rewrite (decode_encoder_tokens _ Hokb), <- Hda, <- Hdb.
  - eapply Forall_impl; [exact Hoka|]. apply encoder_token_literal.
Qed.

(** ** Further properties of the bit packer *)

Lemma bits_value_map (f : Z -> Z) (l : list Z) :
  (forall v, (f v =? 255) = (v =? 255)) ->
  forall byte : Z, bits_value (map f l) byte = bits_value l byte.
Proof.
  intros Hf. unfold bits_value.
  induction l as [|p tl IH]; intros byte; [done|].
  cbn [map fold_left]. by rewrite Hf, IH.
Qed.

Lemma chunk_byte_map (f : Z -> Z) (pixels : list Z) (c : nat) :
  (forall v, (f v =? 255) = (v =? 255)) ->
  chunk_byte (map f pixels) c = chunk_byte pixels c.
Proof.
  intros Hf. unfold chunk_byte.
  by rewrite skipn_map, firstn_map, bits_value_map.
Qed.

(** X6.  The packer looks at nothing but whether a pixel equals [0xFF]:
    any other value, binarized or not, is packed as a clear bit, and the
    outcome (bytes or the length assertion) is the same as on the buffer
    with every other value replaced by [0x00]. *)
Theorem X6_compress_to_bits_only_set (pixels : list Z) :
  compress_to_bits (map (fun v => if v =? 255 then 255 else 0) pixels)
  = compress_to_bits pixels.
Proof.
  set (f := fun v : Z => if v =? 255 then 255 else 0).
  assert (Hf : forall v, (f v =? 255) = (v =? 255)).
  { intros v. unfold f. by destruct (Z.eqb_spec v 255). }
  destruct (Z.eq_dec (Z.of_nat (length pixels) mod 8) 0) as [Hdiv|Hndiv].
  - apply divide_8_length in Hdiv as [m Hm].
    assert (Hlen : length pixels = (8 * m)%nat) by lia.
    rewrite (compress_to_bits_chunks pixels m Hlen).
    rewrite (compress_to_bits_chunks (map f pixels) m) by (by rewrite length_map).
    f_equal. apply map_ext. intros c. by apply chunk_byte_map.
  - unfold compress_to_bits. rewrite length_map.
    by destruct (Z.eqb_spec (Z.of_nat (length pixels) mod 8) 0).
Qed.

Lemma byte_pixels_length (byte : Z) : length (byte_pixels byte) = 8%nat.
Proof. unfold byte_pixels, range. by rewrite !length_map, length_seq. Qed.

Lemma bits_value_byte_pixels (byte : Z) :
  is_byte byte -> bits_value (byte_pixels byte) 0 = byte.
Proof.
  intros [Hlo Hhi]. apply Z.bits_inj'. intros n Hn.
  rewrite bits_value_testbit, byte_pixels_length by done.
  destruct (Z.ltb_spec n (Z.of_nat 8)) as [Hlt|Hge].
  - unfold byte_pixels, range. change (Z.to_nat 8) with 8%nat.
    rewrite map_map.
    rewrite (nth_map_seq
      (fun x : nat =>
         if Z.land byte (Z.shiftl 1 (7 - Z.of_nat x)) =? 0 then 0 else 255) 0 8 0)
      by lia.
    cbn [Nat.add]. rewrite land_bit_test by lia.
    replace (7 - Z.of_nat (Z.to_nat (Z.of_nat 8 - 1 - n))) with n by lia.
    by destruct (Z.testbit byte n).
  - rewrite Z.bits_0. symmetry.
    destruct (Z.eq_dec byte 0) as [->|Hnz]; [apply Z.bits_0|].
    apply Z.bits_above_log2; [done|].
    assert (Z.log2 byte < 8) by (apply Z.log2_lt_pow2; lia).
    lia.
Qed.

Lemma chunk_byte_unpacked (bytes : list Z) :
  forall c : nat,
    (c < length bytes)%nat ->
    chunk_byte (flat_map byte_pixels bytes) c
    = bits_value (byte_pixels (nth c bytes 0)) 0.
Proof.
  unfold chunk_byte.
  induction bytes as [|b bytes IH]; intros c Hc; [cbn in Hc; lia|].
  cbn [flat_map]. destruct c as [|c].
  - rewrite Nat.mul_0_r, drop_0. cbn [nth].
    by rewrite take_app_length' by (by rewrite byte_pixels_length).
  - replace (8 * S c)%nat with (length (byte_pixels b) + 8 * c)%nat
      by (rewrite byte_pixels_length; lia).
    rewrite drop_app_add. cbn [nth]. apply IH. cbn in Hc. lia.
Qed.

Lemma unpack_bits_length (bytes : list Z) :
  length (unpack_bits bytes) = (8 * length bytes)%nat.
Proof.
  rewrite unpack_bits_flat_map.
  induction bytes as [|b bytes IH]; [done|].
  cbn [flat_map length]. rewrite length_app, byte_pixels_length, IH. lia.
Qed.

(** X7.  Packing undoes unpacking: for every sequence of bytes, the pixels
    it unpacks to pack back to the same bytes. *)
Theorem X7_pack_unpack (bytes : list Z) :
  Forall is_byte bytes ->
  compress_to_bits (unpack_bits bytes) = Ok bytes.
Proof.
  intros Hbytes.
  rewrite (compress_to_bits_chunks _ (length bytes)) by apply unpack_bits_length.
  f_equal. rewrite unpack_bits_flat_map.
  transitivity (map (fun j => nth (0 + j) bytes 0) (seq 0 (length bytes))).
  - apply map_ext_in. intros c Hc. apply in_seq in Hc.
    rewrite chunk_byte_unpacked by lia.
    apply bits_value_byte_pixels.
    apply (proj1 (Forall_nth is_byte 0 bytes) Hbytes). lia.
  - rewrite <- take_drop_map_nth by lia.
    rewrite drop_0. by apply take_ge.
Qed.

Lemma X7_pack_unpack_witness :
  compress_to_bits (unpack_bits [0; 129; 255]) = Ok [0; 129; 255].
Proof.
  apply (X7_pack_unpack [0; 129; 255]).
  repeat constructor; unfold is_byte; lia.
Defined.

(** * Further properties of grid detection *)

Lemma range_sorted_from (n k : nat) :
  StronglySorted Z.lt (map Z.of_nat (seq k n)).
Proof.
  revert k. induction n as [|n IH]; intros k; cbn [seq map]; constructor.
  - apply IH.
  - apply List.Forall_forall. intros x Hx.
    apply in_map_iff in Hx as (j & <- & Hj). apply in_seq in Hj. lia.
Qed.

Lemma filter_sorted (keep : Z -> bool) (l : list Z) :
  StronglySorted Z.lt l -> StronglySorted Z.lt (List.filter keep l).
Proof.
  induction 1 as [|x l Hl IH Hx]; cbn [List.filter]; [constructor|].
  destruct (keep x); [|done]. constructor; [done|].
  apply List.Forall_forall. intros y Hy. apply filter_In in Hy as [Hy _].
  by apply (proj1 (List.Forall_forall _ _) Hx).
Qed.

Lemma v_separators_sorted (img : image) (threshold : Z) :
  StronglySorted Z.lt (v_separators img threshold).
Proof.
  unfold v_separators. rewrite fold_left_filter. cbn [app].
  apply filter_sorted, range_sorted_from.
Qed.

Lemma h_separators_sorted (img : image) (threshold : Z) :
  StronglySorted Z.lt (h_separators img threshold).
Proof.
  unfold h_separators. rewrite fold_left_filter. cbn [app].
  apply filter_sorted, range_sorted_from.
Qed.

(** X8.  The separator scans: the vertical separators are exactly the
    columns of the image whose every pixel is below the threshold, the
    horizontal separators exactly such rows, and both lists are in strictly
    increasing order. *)
Theorem X8_separator_scans (img : image) (threshold : Z) :
  (forall x : Z,
      In x (v_separators img threshold)
      <-> 0 <= x < width img
          /\ forall y, 0 <= y < height img -> pixel img x y < threshold)
  /\ (forall y : Z,
        In y (h_separators img threshold)
        <-> 0 <= y < height img
            /\ forall x, 0 <= x < width img -> pixel img x y < threshold)
  /\ StronglySorted Z.lt (v_separators img threshold)
  /\ StronglySorted Z.lt (h_separators img threshold).
Proof.
  split; [intros x; apply v_separators_spec|].
  split; [intros y; apply h_separators_spec|].
  split; [apply v_separators_sorted|apply h_separators_sorted].
Qed.

Lemma separators_cell (seps : list Z) (size : Z) :
  StronglySorted Z.lt seps ->
  (forall x, In x seps -> 0 <= x < size) ->
  seps <> [] ->
  1 <= (if (1 <? length seps)%nat then nth 1 seps 0 - nth 0 seps 0 else size) <= size
  /\ 1 <= (if (1 <? length seps)%nat then Z.of_nat (length seps) - 1 else 1).
Proof.
  intros Hsorted Hin Hne.
  destruct seps as [|s0 [|s1 rest]]; [done| |].
  - cbn. specialize (Hin s0 (or_introl eq_refl)). lia.
  - cbn [length nth]. change (1 <? S (S (length rest)))%nat with true. cbn iota.
    pose proof (Hin s0 (or_introl eq_refl)).
    pose proof (Hin s1 (or_intror (or_introl eq_refl))).
    apply StronglySorted_inv in Hsorted as [_ Hlt].
    apply Forall_inv in Hlt. lia.
Qed.

(** X9.  A detected grid is never degenerate: whenever [detect_grid]
    returns a grid, the column and row counts are at least 1 and the cell
    width and height lie between 1 and the image width and height. *)
Theorem X9_detect_grid_positive (img : image) (threshold : Z)
    (cols rows char_width char_height : Z) :
  detect_grid img threshold = Some (cols, rows, char_width, char_height) ->
  1 <= cols /\ 1 <= rows
  /\ 1 <= char_width <= width img
  /\ 1 <= char_height <= height img.
Proof.
  unfold detect_grid.
  destruct (v_separators img threshold) as [|v vs] eqn:Hv; [done|].
  destruct (h_separators img threshold) as [|hh hs] eqn:Hh; [done|].
  change ((0 <? length (v :: vs))%nat && (0 <? length (hh :: hs))%nat) with true.
  cbv iota. intros Heq.
  pose proof (separators_cell (v :: vs) (width img)) as Hvc.
  pose proof (separators_cell (hh :: hs) (height img)) as Hhc.
  rewrite <- Hv in Hvc. rewrite <- Hh in Hhc.
  destruct Hvc as [Hcw Hcols].
  { apply v_separators_sorted. }
  { intros x Hx. by apply v_separators_spec in Hx as [Hx _]. }
  { by rewrite Hv. }
  destruct Hhc as [Hch Hrows].
  { apply h_separators_sorted. }
  { intros y Hy. by apply h_separators_spec in Hy as [Hy _]. }
  { by rewrite Hh. }
  rewrite Hv in Hcw, Hcols. rewrite Hh in Hch, Hrows.
  injection Heq as <- <- <- <-. done.
Qed.

Lemma X9_detect_grid_positive_witness :
  let img :=
    {| width := 20; height := 16;
       pixel := fun x y =>
         if (x =? 5) || (x =? 15) || (y =? 3) || (y =? 13) then 0 else 255 |} in
  detect_grid img 128 = Some (1, 1, 10, 10)
  /\ (1 <= 1 /\ 1 <= 1 /\ 1 <= 10 <= width img /\ 1 <= 10 <= height img).
Proof.
  intros img.
  assert (Hd : detect_grid img 128 = Some (1, 1, 10, 10))
    by (vm_compute; reflexivity).
  split; [exact Hd|].
  exact (X9_detect_grid_positive img 128 1 1 10 10 Hd).
Defined.


(** * Further properties of glyph injection *)

Lemma only_painted_refl (pixels : list Z) : only_painted pixels pixels.
Proof. split; [done|]. intros k. by left. Qed.

Lemma only_painted_trans (p1 p2 p3 : list Z) :
  only_painted p1 p2 -> only_painted p2 p3 -> only_painted p1 p3.
Proof.
  intros [Hl12 H12] [Hl23 H23]. split; [congruence|].
  intros k. destruct (H23 k) as [->| ->]; [apply H12|by right].
Qed.

Lemma only_painted_setitem (pixels pixels' : list Z) (k : Z) :
  setitem pixels k 255 = Ok pixels' -> only_painted pixels pixels'.
Proof.
  unfold setitem. destruct (py_index (length pixels) k) as [i|]; [|done].
  intros [= <-]. split; [apply length_insert|].
  intros j. destruct (decide (i = j)) as [<-|Hne].
  - destruct (decide (i < length pixels)%nat).
    + right. by apply list_lookup_insert_eq.
    + left. by rewrite list_insert_ge by lia.
  - left. by apply list_lookup_insert_ne.
Qed.

Lemma for_each_only_painted {A : Type} (body : list Z -> A -> outcome (list Z))
    (xs : list A) :
  (forall s x s', body s x = Ok s' -> only_painted s s') ->
  forall s s' : list Z, for_each xs body s = Ok s' -> only_painted s s'.
Proof.
  intros Hbody. induction xs as [|x xs IH]; intros s s'; cbn [for_each].
  - intros [= <-]. apply only_painted_refl.
  - destruct (body s x) as [s1|e] eqn:Hx; [|done]. intros Hrest.
    eapply only_painted_trans; [by eapply Hbody|by apply IH].
Qed.

Lemma only_painted_binary (pixels pixels' : list Z) :
  only_painted pixels pixels' ->
  Forall binary_pixel pixels -> Forall binary_pixel pixels'.
Proof.
  intros [_ Hk] Hbin. apply Forall_lookup. intros k v Hv.
  destruct (Hk k) as [Heq|Heq]; rewrite Heq in Hv.
  - by apply (Forall_lookup_1 _ _ _ _ Hbin Hv).
  - injection Hv as <-. by right.
Qed.

Lemma solid_char_painted (pixels pixels' : list Z)
    (w h cols rows char_w char_h : Z) :
  generate_solid_char pixels w h cols rows char_w char_h = Ok pixels' ->
  only_painted pixels pixels'.
Proof.
  unfold generate_solid_char, pymod, floordiv.
  destruct (cols =? 0); [done|]. cbn [mbind outcome_bind].
  apply for_each_only_painted. intros s dy s'.
  apply for_each_only_painted. intros s1 dx s1'. cbv zeta.
  destruct ((0 <=? 95 mod cols * char_w + dx) && (95 mod cols * char_w + dx <? w)
            && (0 <=? 95 / cols * char_h + dy) && (95 / cols * char_h + dy <? h)).
  - apply only_painted_setitem.
  - intros [= <-]. apply only_painted_refl.
Qed.

(** X11.  Glyph injection only ever sets pixels: on any buffer, of any
    length, if [generate_solid_char] returns, the buffer keeps its length,
    every element is either unchanged or [0xFF], and a binarized buffer
    stays binarized. *)
Theorem X11_solid_char_only_paints (pixels pixels' : list Z)
    (w h cols rows char_w char_h : Z) :
  generate_solid_char pixels w h cols rows char_w char_h = Ok pixels' ->
  only_painted pixels pixels'
  /\ (Forall binary_pixel pixels -> Forall binary_pixel pixels').
Proof.
  intros Hrun. apply solid_char_painted in Hrun.
  split; [done|by apply only_painted_binary].
Qed.

Lemma X11_solid_char_only_paints_witness :
  only_painted (replicate 96 0) (replicate 95 0 ++ [255]).
Proof.
  apply (X11_solid_char_only_paints (replicate 96 0) (replicate 95 0 ++ [255])
           16 6 16 6 1 1).
  vm_compute. reflexivity.
Defined.

(** X12.  Errors of glyph injection on a buffer of [w * h] pixels: it
    raises exactly when the column count is zero, and then a division by
    zero; no subscript is ever out of range. *)
Theorem X12_solid_char_errors (pixels : list Z) (w h cols rows char_w char_h : Z) :
  Z.of_nat (length pixels) = w * h ->
  (generate_solid_char pixels w h cols rows char_w char_h = Raise ZeroDivisionError
   <-> cols = 0)
  /\ (forall e : exn,
        generate_solid_char pixels w h cols rows char_w char_h = Raise e ->
        e = ZeroDivisionError).
Proof.
  intros Hlen.
  destruct (Z.eq_dec cols 0) as [->|Hc].
  - split; [done|]. by intros e [= <-].
  - assert (Hrun : exists pixels' : list Z,
              generate_solid_char pixels w h cols rows char_w char_h = Ok pixels').
    { unfold generate_solid_char, pymod, floordiv.
      destruct (Z.eqb_spec cols 0) as [|_]; [done|]. cbn [mbind outcome_bind].
      destruct (solid_rows_loop w h (95 mod cols * char_w) (95 / cols * char_h)
                  char_w (Z.to_nat char_h) 0 pixels Hlen)
        as (pixels' & Hloop & _).
      by exists pixels'. }
    destruct Hrun as [pixels' ->].
    split; [split; [by intros [=]|by intros]|by intros e [=]].
Qed.

Lemma X12_solid_char_errors_witness :
  generate_solid_char (replicate 6 0) 3 2 0 4 1 1 = Raise ZeroDivisionError
  <-> 0 = 0.
Proof.
  apply (proj1 (X12_solid_char_errors (replicate 6 0) 3 2 0 4 1 1 eq_refl)).
Defined.

Lemma solid_char_lookup (pixels : list Z) (w h cols rows char_w char_h : Z) :
  Z.of_nat (length pixels) = w * h ->
  cols <> 0 ->
  exists pixels' : list Z,
    generate_solid_char pixels w h cols rows char_w char_h = Ok pixels'
    /\ length pixels' = length pixels
    /\ forall x y : Z,
         0 <= x < w -> 0 <= y < h ->
         pixels' !! Z.to_nat (y * w + x)
         = if decide ((95 / cols) * char_h <= y < (95 / cols) * char_h + char_h
                      /\ (95 mod cols) * char_w <= x < (95 mod cols) * char_w + char_w)
           then Some 255
           else pixels !! Z.to_nat (y * w + x).
Proof.
  intros Hlen Hcols.
  unfold generate_solid_char, pymod, floordiv.
  destruct (Z.eqb_spec cols 0) as [|_]; [done|]. cbn [mbind outcome_bind].
  destruct (solid_rows_loop w h (95 mod cols * char_w) (95 / cols * char_h)
              char_w (Z.to_nat char_h) 0 pixels Hlen)
    as (pixels' & Hloop & Hlen' & Hlook).
  exists pixels'. split; [exact Hloop|]. split; [done|].
  intros x y Hx Hy. rewrite (Hlook x y Hx Hy).
  repeat case_decide; (done || lia).
Qed.

(** X13.  Glyph injection is idempotent: on a [w] by [h] buffer with a
    non-zero column count, injecting the glyph into the buffer a first
    injection returned changes nothing. *)
Theorem X13_solid_char_idempotent (pixels pixels' : list Z)
    (w h cols rows char_w char_h : Z) :
  0 <= w -> 0 <= h ->
  Z.of_nat (length pixels) = w * h ->
  generate_solid_char pixels w h cols rows char_w char_h = Ok pixels' ->
  generate_solid_char pixels' w h cols rows char_w char_h = Ok pixels'.
Proof.
  intros Hw Hh Hlen Hrun.
  assert (Hcols : cols <> 0).
  { intros ->. by cbn in Hrun. }
  destruct (solid_char_lookup pixels w h cols rows char_w char_h Hlen Hcols)
    as (p1 & Hrun1 & Hlen1 & Hlook1).
  assert (p1 = pixels') as -> by congruence.
  destruct (solid_char_lookup pixels' w h cols rows char_w char_h) as
    (p2 & Hrun2 & Hlen2 & Hlook2); [congruence|done|].
  rewrite Hrun2. f_equal. apply list_eq. intros k.
  destruct (decide (k < length pixels)%nat) as [Hk|Hk].
  - destruct (pixel_coordinates w h k Hw Hh ltac:(lia)) as (x & y & Hx & Hy & ->).
    rewrite (Hlook2 x y Hx Hy), (Hlook1 x y Hx Hy).
    by case_decide.
  - by rewrite !lookup_ge_None_2 by lia.
Qed.

Lemma X13_solid_char_idempotent_witness :
  generate_solid_char (replicate 95 0 ++ [255]) 16 6 16 6 1 1
  = Ok (replicate 95 0 ++ [255]).
Proof.
  apply (X13_solid_char_idempotent (replicate 96 0) (replicate 95 0 ++ [255]));
    [lia|lia|reflexivity|vm_compute; reflexivity].
Defined.

(** * Further properties of the orchestrator *)

(** ** Rules for printing statements *)

Lemma io_spec_ret {A : Type} (I : event -> Prop) (E : exn -> Prop) (a : A)
    (Q : list event -> A -> Prop) :
  Q [] a -> io_spec I E (io_ret a) Q.
Proof.
  intros HQ tr tr' r [= <- <-]. exists []. by rewrite app_nil_r.
Qed.

Lemma io_spec_emit (I : event -> Prop) (E : exn -> Prop) (ev : event)
    (Q : list event -> unit -> Prop) :
  I ev -> Q [ev] tt -> io_spec I E (emit ev) Q.
Proof.
  intros HI HQ tr tr' r [= <- <-]. exists [ev]. split; [done|].
  split; [by constructor|done].
Qed.

Lemma io_spec_lift {A : Type} (I : event -> Prop) (E : exn -> Prop)
    (r : outcome A) (Q : list event -> A -> Prop) :
  (forall a, r = Ok a -> Q [] a) ->
  (forall e, r = Raise e -> E e) ->
  io_spec I E (io_lift r) Q.
Proof.
  intros HQ HE tr tr' r' [= <- <-]. exists []. rewrite app_nil_r.
  split; [done|]. split; [done|]. destruct r as [a|e]; [by apply HQ|by apply HE].
Qed.

Lemma io_spec_bind {A B : Type} (I : event -> Prop) (E : exn -> Prop)
    (m : io A) (f : A -> io B)
    (Q1 : list event -> A -> Prop) (Q : list event -> B -> Prop) :
  io_spec I E m Q1 ->
  (forall new1 a, Q1 new1 a -> io_spec I E (f a) (fun new2 b => Q (new1 ++ new2) b)) ->
  io_spec I E (m ≫= f) Q.
Proof.
  intros Hm Hf tr tr' r. unfold mbind, io_mbind.
  destruct (m tr) as [tr1 [a|e]] eqn:Hrun.
  - destruct (Hm tr tr1 (Ok a) Hrun) as (new1 & -> & HI1 & HQ1).
    intros Hrest.
    destruct (Hf new1 a HQ1 _ _ _ Hrest) as (new2 & -> & HI2 & HQ2).
    exists (new1 ++ new2). rewrite app_assoc. split; [done|].
    split; [by apply Forall_app|done].
  - destruct (Hm tr tr1 (Raise e) Hrun) as (new1 & -> & HI1 & HE1).
    intros [= <- <-]. by exists new1.
Qed.

Lemma io_spec_weaken {A : Type} (I : event -> Prop) (E : exn -> Prop)
    (m : io A) (Q Q' : list event -> A -> Prop) :
  io_spec I E m Q -> (forall new a, Q new a -> Q' new a) -> io_spec I E m Q'.
Proof.
  intros Hm HQ tr tr' r Hrun.
  destruct (Hm tr tr' r Hrun) as (new & -> & HI & Hr).
  exists new. split; [done|]. split; [done|].
  destruct r; [by apply HQ|done].
Qed.

Lemma io_framed_ret {A : Type} (a : A) : io_framed (io_ret a).
Proof. intros tr. cbn. by rewrite app_nil_r. Qed.

Lemma io_framed_lift {A : Type} (r : outcome A) : io_framed (io_lift r).
Proof. intros tr. cbn. by rewrite app_nil_r. Qed.

Lemma io_framed_emit (ev : event) : io_framed (emit ev).
Proof. by intros tr. Qed.

Lemma io_framed_bind {A B : Type} (m : io A) (f : A -> io B) :
  io_framed m -> (forall a, io_framed (f a)) -> io_framed (m ≫= f).
Proof.
  intros Hm Hf tr. unfold mbind, io_mbind.
  rewrite (Hm tr). destruct (m []) as [new1 [a|e]]; cbn [fst snd].
  - rewrite (Hf a (tr ++ new1)), (Hf a new1). cbn [fst snd].
    by rewrite app_assoc.
  - done.
Qed.

(** ** What a run of [process_image] does *)

Lemma no_exit_raise {A : Type} (r : outcome A) (e : exn) :
  no_exit r -> r = Raise e -> not_exit e.
Proof. intros Hr -> code ->. by apply (Hr code). Qed.

Lemma binarize_image_binary (img : image) (threshold : Z) :
  Forall binary_pixel (binarize_image img threshold).
Proof.
  rewrite binarize_image_rows, flat_map_concat_map. apply Forall_concat.
  apply List.Forall_forall. intros r Hr.
  apply in_map_iff in Hr as (y & <- & _).
  apply List.Forall_forall. intros v Hv.
  apply in_map_iff in Hv as (x & <- & _).
  destruct (pixel img (Z.of_nat x) (Z.of_nat y) <? threshold); [by left|by right].
Qed.

Lemma compress_to_bits_ok_length (pixels packed : list Z) :
  compress_to_bits pixels = Ok packed -> Nat.divide 8 (length pixels).
Proof.
  unfold compress_to_bits.
  destruct (Z.eqb_spec (Z.of_nat (length pixels) mod 8) 0) as [Hz|Hz]; [|done].
  intros _. by apply divide_8_length.
Qed.

Lemma pack_encode_decode (pixels packed encoded : list Z) :
  Forall binary_pixel pixels ->
  compress_to_bits pixels = Ok packed ->
  rle_compress packed = Ok encoded ->
  decompress_and_verify encoded (Z.of_nat (length pixels)) = Ok pixels.
Proof.
  intros Hbin Hpack Henc.
  destruct (compress_to_bits_ok_length _ _ Hpack) as [m Hm].
  assert (Hlen : length pixels = (8 * m)%nat) by lia.
  rewrite (compress_to_bits_chunks pixels m Hlen) in Hpack.
  injection Hpack as <-.
  destruct (rle_codec_inverse (map (chunk_byte pixels) (seq 0 m)))
    as (encoded' & Henc' & Hdec).
  assert (encoded' = encoded) as -> by congruence.
  unfold decompress_and_verify. rewrite Hdec. cbn [mbind outcome_bind].
  rewrite unpack_bits_flat_map, unpack_chunks by (done || lia).
  rewrite drop_0, take_ge by lia.
  by rewrite slice_to_length.
Qed.

Lemma compress_to_bits_bytes (pixels packed : list Z) :
  compress_to_bits pixels = Ok packed -> Forall is_byte packed.
Proof.
  intros Hpack.
  destruct (compress_to_bits_ok_length _ _ Hpack) as [m Hm].
  rewrite (compress_to_bits_chunks pixels m) in Hpack by lia.
  injection Hpack as <-.
  apply List.Forall_forall. intros b Hb. apply in_map_iff in Hb as (c & <- & _).
  apply chunk_byte_range.
Qed.

Lemma rle_compress_bytes (data encoded : list Z) :
  Forall is_byte data -> rle_compress data = Ok encoded -> Forall is_byte encoded.
Proof.
  intros Hbytes Henc.
  destruct (rle_compress_tokens data) as (ts & Henc' & Hdata & Hok).
  assert (encoded = flat_map token_bytes ts) as -> by congruence.
  subst data. by apply token_bytes_are_bytes.
Qed.

Lemma binary_pixels_bytes (pixels : list Z) :
  Forall binary_pixel pixels -> Forall is_byte pixels.
Proof.
  intros Hbin. eapply Forall_impl; [exact Hbin|].
  intros p [-> | ->]; unfold is_byte; lia.
Qed.

Section ProcessImage.

Variable open_image : string -> option image.

Lemma process_image_spec (image_path : string) (a : args)
    (output_path : option string) :
  io_spec (fun ev => ev <> VerifyFailed) not_exit
    (process_image open_image image_path a output_path)
    (fun new _ =>
       exists (img : image) (pixels data : list Z) (before : list event),
         open_image image_path = Some img
         /\ new = before ++ [output_event output_path (arg_format a) data]
         /\ only_painted (binarize_image img (arg_threshold a)) pixels
         /\ Forall binary_pixel pixels
         /\ (arg_solid a = false -> pixels = binarize_image img (arg_threshold a))
         /\ (if arg_raw a then data = pixels
             else Nat.divide 8 (length pixels)
                  /\ decompress_and_verify data (Z.of_nat (length pixels))
                     = Ok pixels)
         /\ Forall is_byte data).
Proof.
  unfold process_image.
  apply (io_spec_bind _ _ _ _ (fun _ img => open_image image_path = Some img)).
  { apply io_spec_lift.
    - unfold load_image. intros img. by destruct (open_image image_path) as [i|]; intros [= <-].
    - intros e. apply no_exit_raise, no_exit_load_image. }
  intros new1 img Himg.
  apply (io_spec_bind _ _ _ _ (fun _ _ => True)).
  { apply io_spec_lift; [done|]. intros e. apply no_exit_raise, no_exit_grid_layout. }
  intros new2 [[[cols rows] char_w] char_h] _.
  apply (io_spec_bind _ _ _ _ (fun _ _ => True)).
  { apply io_spec_lift; [done|]. intros e. apply no_exit_raise, no_exit_pymod. }
  intros new3 rw _.
  apply (io_spec_bind _ _ _ _ (fun _ _ => True)).
  { destruct (negb (rw =? 0)); [by apply io_spec_ret|].
    apply (io_spec_bind _ _ _ _ (fun _ _ => True)).
    - apply io_spec_lift; [done|]. intros e. apply no_exit_raise, no_exit_pymod.
    - intros. by apply io_spec_ret. }
  intros new4 uneven _.
  apply (io_spec_bind _ _ _ _ (fun _ _ => True)).
  { destruct uneven; [by apply io_spec_emit|by apply io_spec_ret]. }
  intros new5 [] _.
  set (binary := binarize_image img (arg_threshold a)).
  apply (io_spec_bind _ _ _ _
    (fun _ pixels =>
       only_painted binary pixels /\ Forall binary_pixel pixels
       /\ (arg_solid a = false -> pixels = binary))).
  { destruct (arg_solid a).
    - apply io_spec_lift.
      + intros pixels Hrun. apply solid_char_painted in Hrun.
        split; [done|]. split; [|done].
        eapply only_painted_binary; [exact Hrun|apply binarize_image_binary].
      + intros e. apply no_exit_raise, no_exit_generate_solid_char.
    - apply io_spec_ret. split; [apply only_painted_refl|].
      split; [apply binarize_image_binary|done]. }
  intros new6 pixels (Hpaint & Hbin & Hsolid).
  apply (io_spec_bind _ _ _ _
    (fun _ compressed =>
       (if arg_raw a then compressed = pixels
        else Nat.divide 8 (length pixels)
             /\ decompress_and_verify compressed (Z.of_nat (length pixels))
                = Ok pixels)
       /\ Forall is_byte compressed)).
  { destruct (arg_raw a).
    { apply io_spec_ret. split; [done|by apply binary_pixels_bytes]. }
    apply (io_spec_bind _ _ _ _
      (fun _ bit_packed => compress_to_bits pixels = Ok bit_packed)).
    - apply io_spec_lift; [done|].
      intros e. apply no_exit_raise, no_exit_compress_to_bits.
    - intros new bit_packed Hpack. apply io_spec_lift.
      + intros compressed Henc. split.
        * split; [by eapply compress_to_bits_ok_length|by eapply pack_encode_decode].
        * eapply rle_compress_bytes; [|exact Henc].
          by eapply compress_to_bits_bytes.
      + intros e. apply no_exit_raise, no_exit_rle_compress. }
  intros new7 compressed [Hdata Hbytes].
  apply (io_spec_bind _ _ _ _ (fun _ _ => True)).
  { destruct (arg_stats a); [|by apply io_spec_ret].
    unfold print_stats.
    apply (io_spec_bind _ _ _ _ (fun _ _ => True)); [by apply io_spec_emit|].
    intros. destruct (length compressed =? 0)%nat; [|by apply io_spec_ret].
    apply io_spec_lift; [done|]. by intros e [= <-]. }
  intros new8 [] _.
  apply (io_spec_bind _ _ _ _ (fun _ _ => True)).
  { destruct (arg_list_fonts a); [|by apply io_spec_ret].
    apply (io_spec_bind _ _ _ _ (fun _ _ => True)); [by apply io_spec_emit|].
    intros. destruct (Z.min (32 + cols * rows - 1) 126 <? 0); [|by apply io_spec_ret].
    apply io_spec_lift; [done|]. by intros e [= <-]. }
  intros new9 [] _.
  apply (io_spec_bind _ _ _ _ (fun _ _ => True)).
  { destruct (nonempty (arg_preview a)); [by apply io_spec_emit|by apply io_spec_ret]. }
  intros new10 [] _.
  apply (io_spec_bind _ _ _ _ (fun _ _ => True)).
  { destruct (arg_verify a && negb (arg_raw a)) eqn:Hverify; [|by apply io_spec_ret].
    apply andb_true_iff in Hverify as [_ Hraw]. apply negb_true_iff in Hraw.
    rewrite Hraw in Hdata. destruct Hdata as [_ Hdec].
    apply (io_spec_bind _ _ _ _ (fun _ decompressed => decompressed = pixels)).
    - apply io_spec_lift; [|intros e; apply no_exit_raise, no_exit_decompress_and_verify].
      intros d Hd. congruence.
    - intros new d ->. rewrite bool_decide_eq_true_2 by done.
      by apply io_spec_emit. }
  intros new11 [] _.
  assert (Hemit : (match nonempty output_path with
                   | Some p => emit (Saved p (arg_format a) compressed)
                   | None => emit (Stdout (arg_format a) compressed)
                   end)
                  = emit (output_event output_path (arg_format a) compressed)).
  { unfold output_event. by destruct (nonempty output_path). }
  rewrite Hemit.
  apply io_spec_emit.
  { unfold output_event. by destruct (nonempty output_path). }
  exists img, pixels, compressed.
  rewrite !app_assoc. eexists. split; [done|]. split; [reflexivity|].
  done.
Qed.

End ProcessImage.

(** X14.  Self-verification cannot fail: whatever the image and the
    options, a run of [process_image] never prints the verification
    failure and never calls [sys.exit]; it only appends to the trace. *)
Theorem X14_verification_never_fails (open_image : string -> option image)
    (image_path : string) (a : args) (output_path : option string)
    (tr tr' : list event) (r : outcome unit) :
  process_image open_image image_path a output_path tr = (tr', r) ->
  exists new : list event,
    tr' = tr ++ new
    /\ ~ In VerifyFailed new
    /\ forall code : Z, r <> Raise (SystemExit code).
Proof.
  intros Hrun.
  destruct (process_image_spec open_image image_path a output_path tr tr' r Hrun)
    as (new & -> & Hnew & Hr).
  exists new. split; [done|]. split.
  - intros Hin. by apply (proj1 (List.Forall_forall _ _) Hnew VerifyFailed Hin).
  - intros code ->. by apply (Hr code).
Qed.

Lemma X14_verification_never_fails_witness :
  exists new : list event,
    [Banner "b.png"; Verified; Saved "b.rs" Rust [255]] = [Banner "b.png"] ++ new
    /\ ~ In VerifyFailed new
    /\ forall code : Z, Ok tt <> Raise (SystemExit code).
Proof.
  apply (X14_verification_never_fails two_files "b.png"
           {| arg_image := "font.png"; arg_format := Rust; arg_output := None;
              arg_grid := Some (1, 1); arg_char_size := Some (1, 1);
              arg_solid := false; arg_raw := false; arg_threshold := 128;
              arg_stats := false; arg_preview := None; arg_verify := true;
              arg_batch := []; arg_list_fonts := false |}
           (Some "b.rs"%string) [Banner "b.png"]).
  vm_compute. reflexivity.
Defined.

(** X15.  What a successful run hands over: when [process_image] returns,
    the image was opened and the last event of the run is the output
    event.  The pixel buffer behind it is the binarized image, changed only
    where the optional glyph injection set [0xFF]; in raw mode the output
    is that buffer, otherwise the pixel count is a multiple of 8 and
    [decompress_and_verify] of the output returns the buffer, whether or
    not [--verify] was given. *)
Theorem X15_output_decodes (open_image : string -> option image)
    (image_path : string) (a : args) (output_path : option string)
    (tr tr' : list event) :
  process_image open_image image_path a output_path tr = (tr', Ok tt) ->
  exists (img : image) (pixels data : list Z) (before : list event),
    open_image image_path = Some img
    /\ tr' = tr ++ before ++ [output_event output_path (arg_format a) data]
    /\ only_painted (binarize_image img (arg_threshold a)) pixels
    /\ Forall binary_pixel pixels
    /\ (arg_solid a = false -> pixels = binarize_image img (arg_threshold a))
    /\ (if arg_raw a then data = pixels
        else Nat.divide 8 (length pixels)
             /\ decompress_and_verify data (Z.of_nat (length pixels)) = Ok pixels).
Proof.
  intros Hrun.
  destruct (process_image_spec open_image image_path a output_path tr tr' _ Hrun)
    as (new & -> & _ & img & pixels & data & before
        & Himg & -> & Hpaint & Hbin & Hsolid & Hdata & _).
  by exists img, pixels, data, before.
Qed.

Lemma X15_output_decodes_witness :
  exists (img : image) (pixels data : list Z) (before : list event),
    two_files "b.png" = Some img
    /\ [Saved "b.rs" Rust [255]]
       = [] ++ before ++ [output_event (Some "b.rs"%string) Rust data]
    /\ only_painted (binarize_image img 128) pixels
    /\ Forall binary_pixel pixels
    /\ (false = false -> pixels = binarize_image img 128)
    /\ (Nat.divide 8 (length pixels)
        /\ decompress_and_verify data (Z.of_nat (length pixels)) = Ok pixels).
Proof.
  apply (X15_output_decodes two_files "b.png" (batch_args []) (Some "b.rs"%string) []).
  vm_compute. reflexivity.
Defined.

(** X16.  The fallback grid on a narrow image: with neither [--grid] nor
    [--char-size] and no separator found on some axis, an image less than
    16 pixels wide gets cell width 0, and [process_image] raises a division
    by zero at the divisibility check, before anything is printed or
    written. *)
Theorem X16_fallback_narrow_image (open_image : string -> option image)
    (image_path : string) (a : args) (output_path : option string)
    (img : image) (tr : list event) :
  open_image image_path = Some img ->
  arg_grid a = None -> arg_char_size a = None ->
  v_separators img (arg_threshold a) = []
  \/ h_separators img (arg_threshold a) = [] ->
  0 <= width img < 16 ->
  process_image open_image image_path a output_path tr
  = (tr, Raise ZeroDivisionError).
Proof.
  intros Himg Hgrid Hsize Hnone Hw.
  apply detect_grid_none in Hnone.
  unfold process_image, load_image. rewrite Himg.
  unfold mbind at 1, io_mbind at 1. cbn [io_lift].
  unfold grid_layout. rewrite Hgrid, Hsize, Hnone.
  cbn [floordiv Z.eqb mbind outcome_bind]. 
  unfold mbind at 1, io_mbind at 1. cbn [io_lift].
  rewrite (Z.div_small (width img) 16) by lia.
  unfold mbind at 1, io_mbind at 1. by cbn.
Qed.

Lemma X16_fallback_narrow_image_witness :
  process_image two_files "b.png" (default_args "b.png") None []
  = ([], Raise ZeroDivisionError).
Proof.
  apply (X16_fallback_narrow_image two_files "b.png" (default_args "b.png") None
           (flat_image 8 1 255)); [reflexivity|reflexivity|reflexivity| |cbn; lia].
  left. vm_compute. reflexivity.
Defined.

(** ** Runs do not depend on earlier runs *)

Ltac io_framed_step :=
  match goal with
  | |- io_framed (_ ≫= _) => apply io_framed_bind; [|intros]
  | |- io_framed (io_lift _) => apply io_framed_lift
  | |- io_framed (io_ret _) => apply io_framed_ret
  | |- io_framed (emit _) => apply io_framed_emit
  | |- io_framed (print_stats _ _ _ _ _ _ _ _) => unfold print_stats
  | |- io_framed (if ?b then _ else _) => destruct b
  | |- io_framed (match ?x with _ => _ end) => destruct x
  end.

Section Batch.

Variable open_image : string -> option image.
Variable stem : string -> string.

Lemma process_image_framed (image_path : string) (a : args)
    (output_path : option string) :
  io_framed (process_image open_image image_path a output_path).
Proof. unfold process_image. repeat io_framed_step. Qed.

Lemma batch_loop_framed (a : args) (paths : list string) :
  io_framed (batch_loop open_image stem paths a).
Proof.
  induction paths as [|p paths IH]; cbn [batch_loop].
  - apply io_framed_ret.
  - apply io_framed_bind; [apply io_framed_emit|intros _].
    apply io_framed_bind; [apply process_image_framed|by intros _].
Qed.


(** X18.  Batches compose: processing the batch [pre ++ rest] is
    processing [pre] and then, if no image of [pre] raised, processing
    [rest] on the trace reached; if an image of [pre] raised, nothing of
    [rest] is processed. *)
Theorem X18_batch_loop_app (a : args) (pre rest : list string) (tr : list event) :
  batch_loop open_image stem (pre ++ rest) a tr
  = match batch_loop open_image stem pre a tr with
    | (tr1, Ok _) => batch_loop open_image stem rest a tr1
    | (tr1, Raise e) => (tr1, Raise e)
    end.
Proof.
  revert tr. induction pre as [|p pre IH]; intros tr; [done|].
  cbn [app batch_loop]. unfold mbind, io_mbind, emit.
  destruct (process_image open_image p a (Some (batch_output_path stem a p))
              (tr ++ [Banner p])) as [tr1 [[]|e]]; [apply IH|done].
Qed.

End Batch.

(** * Properties of the output formats *)

Lemma format_hex_byte (b : Z) :
  is_byte b ->
  exists (c1 c2 : ascii) (hi lo : Z),
    format_hex b = String "0" (String "x" (String c1 (String c2 EmptyString)))
    /\ hex_value c1 = Some hi
    /\ hex_value c2 = Some lo
    /\ 16 * hi + lo = b.
Proof.
  intros [Hlo Hhi].
  assert (Hall : forallb hex_entry_ok (seq 0 256) = true) by (vm_compute; reflexivity).
  assert (Hb : hex_entry_ok (Z.to_nat b) = true).
  { apply (proj1 (forallb_forall _ _) Hall). apply in_seq. lia. }
  unfold hex_entry_ok in Hb. rewrite Z2Nat.id in Hb by lia.
  destruct (format_hex b) as [|c [|c' [|c1 [|c2 [|? ?]]]]]; try discriminate.
  apply andb_true_iff in Hb as [Hb Hval].
  apply andb_true_iff in Hb as [Hc Hc'].
  apply Ascii.eqb_eq in Hc, Hc'. subst c c'.
  destruct (hex_value c1) as [hi|] eqn:H1; [|discriminate].
  destruct (hex_value c2) as [lo|] eqn:H2; [|discriminate].
  exists c1, c2, hi, lo. split; [done|]. split; [done|]. split; [done|].
  by apply Z.eqb_eq.
Qed.

Lemma append_assoc (s1 s2 s3 : string) :
  String.append (String.append s1 s2) s3 = String.append s1 (String.append s2 s3).
Proof. induction s1 as [|c s1 IH]; cbn; [done|by rewrite IH]. Qed.

Lemma parse_entries_chunk (chunk : list Z) :
  chunk <> [] ->
  Forall is_byte chunk ->
  parse_entries (String.append (String.concat ", " (map format_hex chunk)) ",")
  = Some chunk.
Proof.
  induction chunk as [|b tl IH]; [done|]. intros _ Hbytes.
  apply Forall_cons in Hbytes as [Hb Htl].
  destruct (format_hex_byte b Hb) as (c1 & c2 & hi & lo & Hfmt & Hhi & Hlo & Hval).
  destruct tl as [|b' tl'].
  - cbn [map String.concat]. rewrite Hfmt. cbn [String.append parse_entries].
    rewrite Hhi, Hlo. by rewrite Hval.
  - change (map format_hex (b :: b' :: tl'))
      with (format_hex b :: map format_hex (b' :: tl')).
    change (String.concat ", " (format_hex b :: map format_hex (b' :: tl')))
      with (String.append (format_hex b)
              (String.append ", " (String.concat ", " (map format_hex (b' :: tl'))))).
    rewrite Hfmt, !append_assoc. cbn [String.append parse_entries].
    rewrite Hhi, Hlo, IH by done. by rewrite Hval.
Qed.

Lemma parse_line_chunk (chunk : list Z) :
  chunk <> [] -> Forall is_byte chunk -> parse_line (data_line chunk) = Some chunk.
Proof. intros Hne Hbytes. unfold data_line. cbn. by apply parse_entries_chunk. Qed.

Lemma data_lines_chunks (lines : list string) (data : list Z) :
  data_lines lines data
  = lines
    ++ map (fun k : nat => data_line (take 16 (drop (16 * k) data)))
         (seq 0 (Z.to_nat ((Z.of_nat (length data) + 15) / 16))).
Proof.
  unfold data_lines, range_step. cbv zeta.
  rewrite (fold_left_snoc
    (fun i : Z => data_line (take 16 (drop (Z.to_nat i) data)))).
  f_equal. replace (Z.of_nat (length data) + 16 - 1) with (Z.of_nat (length data) + 15) by lia.
  rewrite map_map. apply map_ext. intros k.
  by replace (Z.to_nat (Z.of_nat k * 16)) with (16 * k)%nat by lia.
Qed.

Lemma parse_lines_chunks (data : list Z) :
  Forall is_byte data ->
  forall n k : nat,
    (n = 0 \/ 16 * (k + n - 1) < length data)%nat ->
    parse_lines
      (map (fun k : nat => data_line (take 16 (drop (16 * k) data))) (seq k n))
    = Some (take (16 * n) (drop (16 * k) data)).
Proof.
  intros Hbytes. induction n as [|n IH]; intros k Hn.
  - by rewrite Nat.mul_0_r.
  - cbn [seq map parse_lines].
    rewrite parse_line_chunk, IH.
    + replace (16 * S k)%nat with (16 * k + 16)%nat by lia.
      rewrite <- drop_drop, take_take_drop. do 2 f_equal. lia.
    + destruct n; [by left|right; lia].
    + intros Hnil. apply (f_equal length) in Hnil.
      rewrite length_take, length_drop in Hnil. cbn [length] in Hnil. lia.
    + by apply Forall_take, Forall_drop.
Qed.

Lemma chunk_count (n : nat) :
  let count := Z.to_nat ((Z.of_nat n + 15) / 16) in
  (n <= 16 * count)%nat /\ (count = 0 \/ 16 * (count - 1) < n)%nat.
Proof.
  cbv zeta.
  pose proof (Z.div_mod (Z.of_nat n + 15) 16 ltac:(lia)) as Hdm.
  pose proof (Z.mod_pos_bound (Z.of_nat n + 15) 16 ltac:(lia)) as Hmod.
  assert (0 <= (Z.of_nat n + 15) / 16) by (apply Z.div_pos; lia).
  split; [lia|]. destruct n; [by left|right; lia].
Qed.

Lemma parse_array_lines (opening1 opening2 opening3 closing : string)
    (data : list Z) :
  Forall is_byte data ->
  parse_array (data_lines [opening1; opening2; opening3] data ++ [closing])
  = Some data.
Proof.
  intros Hbytes. unfold parse_array. rewrite data_lines_chunks.
  set (count := Z.to_nat ((Z.of_nat (length data) + 15) / 16)).
  set (body := map (fun k : nat => data_line (take 16 (drop (16 * k) data)))
                 (seq 0 count)).
  assert (Hbody : length body = count) by (unfold body; by rewrite length_map, length_seq).
  rewrite !length_app. cbn [length app drop]. rewrite drop_0.
  rewrite take_app_length' by lia.
  destruct (chunk_count (length data)) as [Hcover Hlast]. fold count in Hcover, Hlast.
  unfold body. rewrite (parse_lines_chunks data Hbytes count 0) by (cbn; lia).
  rewrite drop_0. f_equal. apply take_ge. lia.
Qed.

(** X19.  The array literals hold the data: for every sequence of bytes,
    reading back the lines that [format_rust] and [format_c] build (the
    entries between the three opening lines and the closing line, each
    [0x] and two hexadecimal digits) gives the sequence itself. *)
Theorem X19_array_literal_round_trip (data : list Z) (name : string) :
  Forall is_byte data ->
  parse_array (format_rust_lines data name) = Some data
  /\ parse_array (format_c_lines data name) = Some data.
Proof.
  intros Hbytes. split; by apply parse_array_lines.
Qed.

Lemma X19_array_literal_round_trip_witness :
  parse_array (format_rust_lines [0; 1; 255] "FONT") = Some [0; 1; 255]
  /\ parse_array (format_c_lines [0; 1; 255] "FONT") = Some [0; 1; 255].
Proof.
  apply (X19_array_literal_round_trip [0; 1; 255] "FONT").
  repeat constructor; unfold is_byte; lia.
Defined.

(** X20.  Layout of the array literals: three opening lines, one line for
    every sixteen bytes of data (the last one possibly shorter), one
    closing line. *)
Theorem X20_array_literal_line_count (data : list Z) (name : string) :
  length (format_rust_lines data name)
  = (4 + Z.to_nat ((Z.of_nat (length data) + 15) / 16))%nat
  /\ length (format_c_lines data name)
     = (4 + Z.to_nat ((Z.of_nat (length data) + 15) / 16))%nat.
Proof.
  unfold format_rust_lines, format_c_lines.
  rewrite !data_lines_chunks, !length_app, !length_map, !length_seq.
  cbn [length]. lia.
Qed.

Lemma format_binary_bytes (data : list Z) :
  Forall is_byte data -> format_binary data = Ok data.
Proof.
  intros Hbytes. unfold format_binary.
  assert (forallb (fun b => (0 <=? b) && (b <? 256)) data = true) as ->; [|done].
  apply forallb_forall. intros b Hb.
  destruct (proj1 (List.Forall_forall _ _) Hbytes b Hb) as [Hlo Hhi].
  apply andb_true_iff. split; [by apply Z.leb_le|by apply Z.ltb_lt].
Qed.

(** X21.  The output always formats: the data behind the output event of a
    successful run of [process_image] is a sequence of bytes, in raw mode
    as in compressed mode, so the formatting step of the chosen format
    (the conversion to [bytes] for [bin]) returns and never raises. *)
Theorem X21_output_always_formats (open_image : string -> option image)
    (image_path : string) (a : args) (output_path : option string)
    (tr tr' : list event) :
  process_image open_image image_path a output_path tr = (tr', Ok tt) ->
  exists (before : list event) (data : list Z),
    tr' = tr ++ before ++ [output_event output_path (arg_format a) data]
    /\ Forall is_byte data
    /\ format_binary data = Ok data
    /\ exists formatted, format_output (arg_format a) data = Ok formatted.
Proof.
  intros Hrun.
  destruct (process_image_spec open_image image_path a output_path tr tr' _ Hrun)
    as (new & -> & _ & img & pixels & data & before
        & _ & -> & _ & _ & _ & _ & Hbytes).
  exists before, data. split; [done|]. split; [done|].
  split; [by apply format_binary_bytes|].
  unfold format_output. destruct (arg_format a); [by eexists|by eexists|].
  rewrite format_binary_bytes by done. by eexists.
Qed.

Lemma X21_output_always_formats_witness :
  exists (before : list event) (data : list Z),
    [Saved "b.rs" Rust [255]]
    = [] ++ before ++ [output_event (Some "b.rs"%string) Rust data]
    /\ Forall is_byte data
    /\ format_binary data = Ok data
    /\ exists formatted, format_output Rust data = Ok formatted.
Proof.
  apply (X21_output_always_formats two_files "b.png" (batch_args [])
           (Some "b.rs"%string) []).
  vm_compute. reflexivity.
Defined.

